(** * BetterSpaceTools (NusaIsochrone): the isochrone engine

    A shallow embedding of the three services of the repository
    - [services/isochroneService]: [calculateDijkstra], [generateHull];
    - [services/overpassService]: [getDistance], [fetchRoadNetwork];
    - [App]: the radius estimate and the pipeline of [calculateIsochrone];
    followed by the properties of the specification, each proved or
    refuted on these definitions. *)

From Stdlib Require Import List String Bool Arith ZArith Lia Sorted.
From Stdlib Require Import QArith Qreals Reals Psatz DecimalString.
From Stdlib Require DecimalPos DecimalZ PrimFloat.
Import ListNotations.

Set Implicit Arguments.

(* ================================================================== *)
(** * Part I. The program *)
(* ================================================================== *)

(** ** JavaScript numbers

    The services only add, subtract, multiply, divide and compare
    numbers, and call a handful of [Math] functions.  The embedding is
    written once over an interface of these operations and is run at two
    carriers: the rationals [Q], on which every definition evaluates, and
    the reals [R], which carry the trigonometry of [getDistance].
    Rounding, infinities and NaN are outside both carriers. *)

Class Number (N : Type) : Type := {
  num_of_Q : Q -> N;             (* a decimal literal *)
  num_add : N -> N -> N;
  num_sub : N -> N -> N;
  num_mul : N -> N -> N;
  num_div : N -> N -> N;
  num_ltb : N -> N -> bool       (* [a < b] *)
}.

Declare Scope num_scope.
Delimit Scope num_scope with num.
Infix "+" := num_add : num_scope.
Infix "-" := num_sub : num_scope.
Infix "*" := num_mul : num_scope.
Infix "/" := num_div : num_scope.
Infix "<?" := num_ltb : num_scope.

Definition num_of_Z {N} `{Number N} (z : Z) : N := num_of_Q (inject_Z z).

(** [a <= b] as the services test it: [!(b < a)]. *)
Definition num_le {N} `{Number N} (a b : N) : Prop := num_ltb b a = false.

(** [!x] on a number: true for zero (and for NaN, which no carrier has). *)
Definition num_falsy {N} `{Number N} (x : N) : bool :=
  negb (num_ltb x (num_of_Z 0)) && negb (num_ltb (num_of_Z 0) x).

(** [Math.pow(x, 2)]. *)
Definition Math_pow2 {N} `{Number N} (x : N) : N := (x * x)%num.

(** The part of [Math] that [getDistance] calls. *)
Class MathLib (N : Type) : Type := {
  Math_PI : N;
  Math_sin : N -> N;
  Math_cos : N -> N;
  Math_sqrt : N -> N;
  Math_atan2 : N -> N -> N
}.

#[export] Instance Number_Q : Number Q := {|
  num_of_Q := fun q => q;
  num_add := Qplus;
  num_sub := Qminus;
  num_mul := Qmult;
  num_div := Qdiv;
  num_ltb := fun a b => negb (Qle_bool b a)
|}.

Definition Rltb (a b : R) : bool := if Rlt_dec a b then true else false.

#[export] Instance Number_R : Number R := {|
  num_of_Q := Q2R;
  num_add := Rplus;
  num_sub := Rminus;
  num_mul := Rmult;
  num_div := Rdiv;
  num_ltb := Rltb
|}.

(** [Math.atan2(y, x)] on the reals: the angle of the point [(x, y)]. *)
Definition Ratan2 (y x : R) : R :=
  if Rlt_dec 0 x then atan (y / x)
  else if Rlt_dec x 0 then
    (if Rlt_dec y 0 then atan (y / x) - PI else atan (y / x) + PI)
  else if Rlt_dec 0 y then PI / 2
  else if Rlt_dec y 0 then - (PI / 2)
  else 0.

#[export] Instance MathLib_R : MathLib R := {|
  Math_PI := PI;
  Math_sin := sin;
  Math_cos := cos;
  Math_sqrt := sqrt;
  Math_atan2 := Ratan2
|}.

(** The specification's distance: the haversine formula for the
    great-circle distance in metres between two points given in
    degrees, on a sphere of radius 6371 km, that is
    [2 r asin (sqrt (hav dphi + cos phi1 cos phi2 hav dlambda))] with
    [hav t = sin^2 (t / 2)]. *)
Definition hav (theta : R) : R := (sin (theta / 2) * sin (theta / 2))%R.

Definition haversine_distance (lat1 lon1 lat2 lon2 : R) : R :=
  let phi1 := (lat1 * PI / 180)%R in
  let phi2 := (lat2 * PI / 180)%R in
  let lambda1 := (lon1 * PI / 180)%R in
  let lambda2 := (lon2 * PI / 180)%R in
  (2 * 6371000
   * asin (sqrt (hav (phi2 - phi1)
                 + cos phi1 * cos phi2 * hav (lambda2 - lambda1))))%R.

(** ** JavaScript [Map<string, V>]

    A [Map] iterates in insertion order ([graph.nodes.forEach]) and
    [set] on a present key keeps the key's position, so a map is an
    association list in insertion order. *)

Module JsMap.

Definition t (V : Type) : Type := list (string * V).

Definition empty {V} : t V := [].

Fixpoint get {V} (m : t V) (k : string) : option V :=
  match m with
  | [] => None
  | (k', v) :: m' => if String.eqb k' k then Some v else get m' k
  end.

Definition has {V} (m : t V) (k : string) : bool :=
  match get m k with Some _ => true | None => false end.

Fixpoint set {V} (m : t V) (k : string) (v : V) : t V :=
  match m with
  | [] => [(k, v)]
  | (k', v') :: m' =>
      if String.eqb k' k then (k', v) :: m' else (k', v') :: set m' k v
  end.

Definition size {V} (m : t V) : nat := List.length m.

End JsMap.

(** ** types.ts and constants.ts *)

Inductive TransportMode : Type := WALKING | CYCLING | DRIVING.

Section Types.
Context {N : Type}.

Record IsochroneParams : Type := {
  p_lat : N;
  p_lng : N;
  p_mode : TransportMode;
  p_minutes : N
}.

Record Node : Type := { id : string; lat : N; lon : N }.

Record Edge : Type := { source : string; target : string; weight : N }.

Record GraphData : Type := {
  nodes : JsMap.t Node;
  adjacency : JsMap.t (list Edge)
}.

End Types.

(** [adjacency.get(k) || []]. *)
Definition edges_at {N} (adjacency : JsMap.t (list (@Edge N))) (k : string)
    : list (@Edge N) :=
  match JsMap.get adjacency k with
  | Some es => es
  | None => []
  end.

Arguments IsochroneParams : clear implicits.
Arguments Node : clear implicits.
Arguments Edge : clear implicits.
Arguments GraphData : clear implicits.

(** [TRANSPORT_SPEEDS], in km/h. *)
Definition TRANSPORT_SPEEDS {N} `{Number N} (mode : TransportMode) : N :=
  match mode with
  | WALKING => num_of_Z 5
  | CYCLING => num_of_Z 15
  | DRIVING => num_of_Z 40
  end.

(** ** services/isochroneService: [calculateDijkstra] *)

Section Dijkstra.
Context {N : Type} `{Number N}.

(** The callback of [graph.nodes.forEach]; [minDist = Infinity] is
    [None], below which every distance lies. *)
Definition nearest_step (startLat startLng : N)
    (acc : option string * option N) (entry : string * Node N)
    : option string * option N :=
  let '(k, node) := entry in
  let d := (Math_pow2 (lat node - startLat)
            + Math_pow2 (lon node - startLng))%num in
  let closer := match snd acc with
                | None => true
                | Some minDist => (d <? minDist)%num
                end in
  if closer then (Some k, Some d) else acc.

Definition nearest_node (g : GraphData N) (startLat startLng : N)
    : option string :=
  fst (fold_left (nearest_step startLat startLng) (nodes g) (None, None)).

(** [!startNodeId]: [null] and the empty string are falsy. *)
Definition start_node (g : GraphData N) (startLat startLng : N)
    : option string :=
  match nearest_node g startLat startLng with
  | Some k => if String.eqb k "" then None else Some k
  | None => None
  end.

(** [pq.sort((a, b) => a[0] - b[0])]: the stable sort by that
    comparator, as an insertion sort. *)
Definition pq_compare (a b : N * string) : N := (fst a - fst b)%num.

Fixpoint pq_insert (x : N * string) (l : list (N * string))
    : list (N * string) :=
  match l with
  | [] => [x]
  | y :: l' =>
      if (pq_compare y x <? num_of_Z 0)%num
      then y :: pq_insert x l'
      else x :: l
  end.

Definition pq_sort (l : list (N * string)) : list (N * string) :=
  fold_right pq_insert [] l.

(** The order the sort establishes. *)
Definition key_le (a b : N * string) : Prop := num_le (fst a) (fst b).

(** The state of the [while] loop. *)
Record SearchState : Type := {
  distances : JsMap.t N;
  pq : list (N * string);
  reachableNodes : list (Node N)
}.

(** The body of [for (const edge of neighbors)]. *)
Definition relax (d : N) (st : JsMap.t N * list (N * string))
    (edge : Edge N) : JsMap.t N * list (N * string) :=
  let '(dist, q) := st in
  let vId := target edge in
  let newDist := (d + weight edge)%num in
  if negb (JsMap.has dist vId)
     || match JsMap.get dist vId with
        | Some dv => (newDist <? dv)%num
        | None => false
        end
  then (JsMap.set dist vId newDist, q ++ [(newDist, vId)])
  else st.

(** [graph.adjacency.get(uId) || []]. *)
Definition neighbors_of (g : GraphData N) (uId : string) : list (Edge N) :=
  edges_at (adjacency g) uId.

(** One iteration of [while (pq.length > 0)]. *)
Definition loop_body (g : GraphData N) (maxTimeSeconds : N)
    (st : SearchState) : SearchState :=
  match pq_sort (pq st) with
  | [] => st
  | (d, uId) :: rest =>
      if (maxTimeSeconds <? d)%num
      then {| distances := distances st; pq := rest;
              reachableNodes := reachableNodes st |}
      else
        let reached :=
          match JsMap.get (nodes g) uId with
          | Some uNode => reachableNodes st ++ [uNode]
          | None => reachableNodes st
          end in
        let '(dist, q) :=
          fold_left (relax d) (neighbors_of g uId) (distances st, rest) in
        {| distances := dist; pq := q; reachableNodes := reached |}
  end.

(** The loop; in exact arithmetic a negative cycle keeps it running,
    so it is indexed by a number of iterations it may take. *)
Fixpoint while_loop (fuel : nat) (g : GraphData N) (maxTimeSeconds : N)
    (st : SearchState) : option SearchState :=
  match pq st with
  | [] => Some st
  | _ :: _ =>
      match fuel with
      | O => None
      | S fuel' =>
          while_loop fuel' g maxTimeSeconds (loop_body g maxTimeSeconds st)
      end
  end.

Definition initial_state (startNodeId : string) : SearchState :=
  {| distances := JsMap.set JsMap.empty startNodeId (num_of_Z 0);
     pq := [(num_of_Z 0, startNodeId)];
     reachableNodes := [] |}.

Definition calculateDijkstra (fuel : nat) (g : GraphData N)
    (startLat startLng maxTimeSeconds : N) : option (list (Node N)) :=
  match start_node g startLat startLng with
  | None => Some []
  | Some startNodeId =>
      option_map reachableNodes
        (while_loop fuel g maxTimeSeconds (initial_state startNodeId))
  end.

(** Observations of a run: the entries taken by [pq.shift()], in
    order, and the contents of the queue at the head of each
    iteration. *)
Fixpoint pops (fuel : nat) (g : GraphData N) (maxTimeSeconds : N)
    (st : SearchState) : list (N * string) :=
  match fuel with
  | O => []
  | S fuel' =>
      match pq_sort (pq st) with
      | [] => []
      | x :: _ =>
          x :: pops fuel' g maxTimeSeconds (loop_body g maxTimeSeconds st)
      end
  end.

Fixpoint queues (fuel : nat) (g : GraphData N) (maxTimeSeconds : N)
    (st : SearchState) : list (list (N * string)) :=
  pq st ::
  match fuel with
  | O => []
  | S fuel' =>
      match pq st with
      | [] => []
      | _ :: _ => queues fuel' g maxTimeSeconds (loop_body g maxTimeSeconds st)
      end
  end.

(** [graph.nodes.get(uId)] of a popped entry, as the list of what
    [reachableNodes.push] adds. *)
Definition node_of (g : GraphData N) (x : N * string) : list (Node N) :=
  match JsMap.get (nodes g) (snd x) with
  | Some uNode => [uNode]
  | None => []
  end.

(** The popped entries that pass [if (d > maxTimeSeconds) continue]
    and have their neighbours relaxed. *)
Definition expanded (maxTimeSeconds : N) (l : list (N * string))
    : list (N * string) :=
  filter (fun x => negb (maxTimeSeconds <? fst x)%num) l.

End Dijkstra.

(** ** services/isochroneService: [generateHull]

    [turf.concave] and [turf.convex] belong to the Turf library, not to
    the repository: they are an interface.  A call either returns a
    feature or [null], or throws. *)

Inductive Completion (A : Type) : Type :=
| Returns (a : A)
| Throws.

Arguments Returns {A}.
Arguments Throws {A}.

Class Turf (N Feature : Type) : Type := {
  (* [turf.concave(featureCollection, { maxEdge })] *)
  turf_concave : list (N * N) -> N -> Completion (option Feature);
  (* [turf.convex(featureCollection)] *)
  turf_convex : list (N * N) -> Completion (option Feature)
}.

Section Hull.
Context {N Feature : Type} `{Number N} `{Turf N Feature}.

Definition generateHull (nodes : list (Node N)) (maxTimeSeconds : N)
    : Completion (option Feature) :=
  if (List.length nodes <? 3)%nat then Returns None
  else
    let points := map (fun n => (lon n, lat n)) nodes in
    let featureCollection := points in
    match turf_concave featureCollection (num_of_Q (1 # 10)) with
    | Returns (Some hull) => Returns (Some hull)
    | Returns None =>
        match turf_convex featureCollection with
        | Returns r => Returns r
        | Throws => turf_convex featureCollection   (* [catch (e)] *)
        end
    | Throws => turf_convex featureCollection       (* [catch (e)] *)
    end.

End Hull.

(** ** services/overpassService *)

(** An element of [data.elements]. *)
Inductive RawElement (N : Type) : Type :=
| RawNode (el_id : Z) (el_lat el_lon : N)          (* [type: 'node'] *)
| RawWay (el_id : Z) (el_nodes : option (list Z))  (* [type: 'way'] *)
| RawOther.                                        (* any other [type] *)

Arguments RawNode {N}.
Arguments RawWay {N}.
Arguments RawOther {N}.

(** [Number.prototype.toString] on an integer id. *)
Definition toString (z : Z) : string := NilZero.string_of_int (Z.to_int z).

Section Overpass.
Context {N : Type} `{Number N} `{MathLib N}.

Definition getDistance (lat1 lon1 lat2 lon2 : N) : N :=
  let R := num_of_Z 6371000 in
  let phi1 := (lat1 * Math_PI / num_of_Z 180)%num in
  let phi2 := (lat2 * Math_PI / num_of_Z 180)%num in
  let dphi := ((lat2 - lat1) * Math_PI / num_of_Z 180)%num in
  let dlambda := ((lon2 - lon1) * Math_PI / num_of_Z 180)%num in
  let a := (Math_sin (dphi / num_of_Z 2) * Math_sin (dphi / num_of_Z 2)
            + Math_cos phi1 * Math_cos phi2
              * Math_sin (dlambda / num_of_Z 2)
              * Math_sin (dlambda / num_of_Z 2))%num in
  let c := (num_of_Z 2
            * Math_atan2 (Math_sqrt a) (Math_sqrt (num_of_Z 1 - a)))%num in
  (R * c)%num.

(** Average speed in m/s. *)
Definition speedMS (mode : TransportMode) : N :=
  (TRANSPORT_SPEEDS mode * num_of_Z 1000 / num_of_Z 3600)%num.

(** "Parse nodes": the first [data.elements.forEach]. *)
Definition parse_node (nodes : JsMap.t (Node N)) (el : RawElement N)
    : JsMap.t (Node N) :=
  match el with
  | RawNode i la lo =>
      JsMap.set nodes (toString i)
        {| id := toString i; lat := la; lon := lo |}
  | _ => nodes
  end.

(** [adjacency.get(k)!.push(e)]; the key has been set before. *)
Definition push_edge (adjacency : JsMap.t (list (Edge N))) (k : string)
    (e : Edge N) : JsMap.t (list (Edge N)) :=
  match JsMap.get adjacency k with
  | Some es => JsMap.set adjacency k (es ++ [e])
  | None => adjacency
  end.

Definition ensure_key (adjacency : JsMap.t (list (Edge N))) (k : string)
    : JsMap.t (list (Edge N)) :=
  if JsMap.has adjacency k then adjacency else JsMap.set adjacency k [].

(** The body of the [for] loop over a way, at [el.nodes[i]] and
    [el.nodes[i + 1]]. *)
Definition add_segment (nodes : JsMap.t (Node N)) (mode : TransportMode)
    (adjacency : JsMap.t (list (Edge N))) (seg : Z * Z)
    : JsMap.t (list (Edge N)) :=
  let uId := toString (fst seg) in
  let vId := toString (snd seg) in
  match JsMap.get nodes uId, JsMap.get nodes vId with
  | Some u, Some v =>
      let dist := getDistance (lat u) (lon u) (lat v) (lon v) in
      let weight := (dist / speedMS mode)%num in
      let adjacency := ensure_key adjacency uId in
      let adjacency := ensure_key adjacency vId in
      let adjacency :=
        push_edge adjacency uId
          {| source := uId; target := vId; weight := weight |} in
      push_edge adjacency vId
        {| source := vId; target := uId; weight := weight |}
  | _, _ => adjacency
  end.

(** The entries that one segment adds under the key [k]. *)
Definition segment_edges (nodes : JsMap.t (Node N)) (mode : TransportMode)
    (seg : Z * Z) (k : string) : list (Edge N) :=
  let uId := toString (fst seg) in
  let vId := toString (snd seg) in
  match JsMap.get nodes uId, JsMap.get nodes vId with
  | Some u, Some v =>
      let weight :=
        (getDistance (lat u) (lon u) (lat v) (lon v) / speedMS mode)%num in
      (if String.eqb uId k
       then [{| source := uId; target := vId; weight := weight |}]
       else [])
      ++ (if String.eqb vId k
          then [{| source := vId; target := uId; weight := weight |}]
          else [])
  | _, _ => []
  end.

(** The pairs [(el.nodes[i], el.nodes[i + 1])] for
    [0 <= i < el.nodes.length - 1]. *)
Fixpoint segments (l : list Z) : list (Z * Z) :=
  match l with
  | [] => []
  | a :: tl =>
      match tl with
      | [] => []
      | b :: _ => (a, b) :: segments tl
      end
  end.

(** "Parse ways and build adjacency": the second
    [data.elements.forEach]. *)
Definition parse_way (nodes : JsMap.t (Node N)) (mode : TransportMode)
    (adjacency : JsMap.t (list (Edge N))) (el : RawElement N)
    : JsMap.t (list (Edge N)) :=
  match el with
  | RawWay _ (Some ids) =>
      fold_left (add_segment nodes mode) (segments ids) adjacency
  | _ => adjacency
  end.

(** What [fetchRoadNetwork] does with [data.elements]. *)
Definition build_graph (elements : list (RawElement N))
    (mode : TransportMode) : GraphData N :=
  let nodes := fold_left parse_node elements JsMap.empty in
  let adjacency := fold_left (parse_way nodes mode) elements JsMap.empty in
  {| nodes := nodes; adjacency := adjacency |}.

(** The answer of the Overpass server: [response.ok] and the
    [elements] of the parsed body. *)
Record Response : Type := {
  resp_ok : bool;
  resp_elements : list (RawElement N)
}.

(** The HTTP exchange.  The query sent is determined by the mode (its
    way filter) and the bounding box. *)
Definition Overpass : Type :=
  TransportMode -> N * N * N * N -> Completion Response.

Definition fetchRoadNetwork (fetch : Overpass) (lat lng radiusMeters : N)
    (mode : TransportMode) : Completion (GraphData N) :=
  let delta := (radiusMeters / num_of_Z 111320 * num_of_Q (3 # 2))%num in
  let bbox := ((lat - delta)%num, (lng - delta)%num,
               (lat + delta)%num, (lng + delta)%num) in
  match fetch mode bbox with
  | Throws => Throws
  | Returns response =>
      if negb (resp_ok response) then Throws
      else Returns (build_graph (resp_elements response) mode)
  end.

End Overpass.

Arguments Response : clear implicits.
Arguments Overpass : clear implicits.

(** ** App: [calculateIsochrone] *)

Section App.
Context {N Feature : Type} `{Number N} `{MathLib N} `{Turf N Feature}.

Record IsochroneResult : Type := {
  polygon : Feature;
  params : IsochroneParams N
}.

(** What a call leaves behind besides the history. *)
Inductive Outcome : Type :=
| Skipped          (* the guard on [lat] and [lng] returned *)
| Appended         (* a result was put in front of the history *)
| AlertSparse      (* "Could not generate isochrone for this area" *)
| AlertFailed.     (* "Failed to calculate isochrone" *)

(** [speedMS * (activeParams.minutes * 60) * 1.5]. *)
Definition radius (activeParams : IsochroneParams N) : N :=
  (speedMS (p_mode activeParams)
   * (p_minutes activeParams * num_of_Z 60)
   * num_of_Q (3 # 2))%num.

(** The pipeline; [None] when the search is still running after
    [fuel] iterations.  The loading flag and the narrative requested
    from the language model after a result was appended touch neither
    the history nor the alerts and are left out. *)
Definition calculateIsochrone (fuel : nat) (fetch : Overpass N)
    (customParams : option (IsochroneParams N))
    (stateParams : IsochroneParams N)
    (history : list IsochroneResult)
    : option (Outcome * list IsochroneResult) :=
  let activeParams :=
    match customParams with Some p => p | None => stateParams end in
  if num_falsy (p_lat activeParams) || num_falsy (p_lng activeParams)
  then Some (Skipped, history)
  else
    match fetchRoadNetwork fetch (p_lat activeParams) (p_lng activeParams)
            (radius activeParams) (p_mode activeParams) with
    | Throws => Some (AlertFailed, history)
    | Returns graph =>
        let budget := (p_minutes activeParams * num_of_Z 60)%num in
        match calculateDijkstra fuel graph (p_lat activeParams)
                (p_lng activeParams) budget with
        | None => None
        | Some nodes =>
            match generateHull nodes budget with
            | Throws => Some (AlertFailed, history)
            | Returns (Some hull) =>
                Some (Appended,
                      {| polygon := hull; params := activeParams |}
                      :: history)
            | Returns None => Some (AlertSparse, history)
            end
        end
    end.

End App.

Arguments IsochroneResult : clear implicits.

(** ** Concrete inputs

    Graphs over [Q] on which the search is run below. *)

Definition mkNode (i : string) (la lo : Q) : Node Q :=
  {| id := i; lat := la; lon := lo |}.

Definition mkEdge (s t : string) (w : Q) : Edge Q :=
  {| source := s; target := t; weight := w |}.

(** Five nodes on a line, consecutive nodes 300 s apart, both
    directions. *)
Definition line5 : GraphData Q := {|
  nodes := [("1", mkNode "1" 0 0); ("2", mkNode "2" 0 1);
            ("3", mkNode "3" 0 2); ("4", mkNode "4" 0 3);
            ("5", mkNode "5" 0 4)]%string;
  adjacency := [("1", [mkEdge "1" "2" 300]);
                ("2", [mkEdge "2" "1" 300; mkEdge "2" "3" 300]);
                ("3", [mkEdge "3" "2" 300; mkEdge "3" "4" 300]);
                ("4", [mkEdge "4" "3" 300; mkEdge "4" "5" 300]);
                ("5", [mkEdge "5" "4" 300])]%string
|}.

(** A triangle: the direct road from A to B takes 10 s, the detour over
    C takes 1 s + 1 s.  Symmetric, weights positive. *)
Definition triangle : GraphData Q := {|
  nodes := [("A", mkNode "A" 0 0); ("B", mkNode "B" 2 0);
            ("C", mkNode "C" 1 1)]%string;
  adjacency := [("A", [mkEdge "A" "B" 10; mkEdge "A" "C" 1]);
                ("B", [mkEdge "B" "A" 10; mkEdge "B" "C" 1]);
                ("C", [mkEdge "C" "A" 1; mkEdge "C" "B" 1])]%string
|}.

(** A stand-in hull library that answers every non-empty collection
    with the ring of its points.  It only serves to run the pipeline
    on concrete inputs; what Turf itself answers is not read off
    it. *)
Definition ring_turf {N : Type} : Turf N (list (N * N)) := {|
  turf_concave := fun pts _ =>
    match pts with [] => Returns None | _ :: _ => Returns (Some pts) end;
  turf_convex := fun pts =>
    match pts with [] => Returns None | _ :: _ => Returns (Some pts) end
|}.

(** An Overpass server that answers every query with [elements]. *)
Definition overpass_answering {N : Type} (elements : list (RawElement N))
    : Overpass N :=
  fun _ _ => Returns {| resp_ok := true; resp_elements := elements |}.

(** An Overpass server that finds nothing. *)
Definition empty_overpass {N : Type} : Overpass N := overpass_answering [].

(** Two points one degree of longitude apart on the equator, joined by
    one way; a third point that no way uses. *)
Definition one_way : list (RawElement R) :=
  [RawNode 1 0%R 0%R; RawNode 2 0%R 1%R; RawNode 3 1%R 1%R;
   RawWay 10 (Some [1; 2]%Z)].

(** Three nodes at one coordinate. *)
Definition coincident3 : list (Node Q) :=
  [mkNode "1" 0 0; mkNode "2" 0 0; mkNode "3" 0 0].

(** The number of adjacency entries (directed edges) of a graph. *)
Definition edge_count {N} (g : GraphData N) : nat :=
  list_sum (map (fun kv => List.length (snd kv)) (adjacency g)).

(** The graph invariant: every entry under a key starts at that key,
    both its ends are keys of [nodes], the opposite entry with the same
    weight is there, and the weight is acceptable. *)
Definition reverse_edge {N} (e : Edge N) : Edge N :=
  {| source := target e; target := source e; weight := weight e |}.

Definition graph_invariant {N} (weight_ok : N -> Prop) (g : GraphData N)
    : Prop :=
  forall k e,
    In e (edges_at (adjacency g) k) ->
    source e = k /\
    JsMap.has (nodes g) (source e) = true /\
    JsMap.has (nodes g) (target e) = true /\
    In (reverse_edge e) (edges_at (adjacency g) (target e)) /\
    weight_ok (weight e).

(** The adjacency entries of the keys outside [X]. *)
Definition pending {N} (X : list string) (adj : JsMap.t (list (Edge N)))
    : nat :=
  list_sum (map (fun kv => if existsb (String.eqb (fst kv)) X then 0%nat
                           else List.length (snd kv)) adj).

(** ** Paths

    [walk g s v d]: some sequence of adjacency entries leads from [s]
    to [v], and adding the weights along it, as the search does, gives
    [d]. *)
Inductive walk {N} `{Number N} (g : GraphData N) (s : string)
    : string -> N -> Prop :=
| walk_start : walk g s s (num_of_Z 0)
| walk_step : forall u d e,
    walk g s u d ->
    In e (neighbors_of g u) ->
    walk g s (target e) (d + weight e)%num.

(** Every adjacency entry has a weight [>= 0]. *)
Definition nonneg_weights {N} `{Number N} (g : GraphData N) : Prop :=
  forall k e, In e (neighbors_of g k) -> num_le (num_of_Z 0) (weight e).

(** The executable form of [nonneg_weights]. *)
Definition nonneg_weightsb {N} `{Number N} (g : GraphData N) : bool :=
  forallb (fun kv =>
             forallb (fun e => negb (weight e <? num_of_Z 0)%num) (snd kv))
          (adjacency g).

(** [X] is settled in a state: whatever entry of the queue is taken
    next, no edge that leaves a node of [X] can lower a distance. *)
Definition settled {N} `{Number N} (g : GraphData N) (X : list string)
    (st : SearchState) : Prop :=
  forall u e x,
    In u X -> In e (neighbors_of g u) -> In x (pq st) ->
    exists dv, JsMap.get (distances st) (target e) = Some dv
               /\ num_le dv (fst x + weight e)%num.

(** The order and arithmetic facts about numbers that the arguments
    about the search rely on. *)
Class OrderedNumber (N : Type) `{Number N} : Prop := {
  num_le_refl : forall a : N, num_le a a;
  num_le_trans : forall a b c : N, num_le a b -> num_le b c -> num_le a c;
  num_lt_le : forall a b : N, (a <? b)%num = true -> num_le a b;
  num_sub_neg : forall a b : N,
    (a - b <? num_of_Z 0)%num = (a <? b)%num;
  num_add_mono : forall a b w : N,
    num_le a b -> num_le (a + w)%num (b + w)%num;
  num_add_nonneg : forall d w : N,
    num_le (num_of_Z 0) w -> num_le d (d + w)%num
}.

Arguments OrderedNumber N {_}.

(** ** Further observations of the search *)

(** The quantity that [calculateDijkstra] minimises over the nodes to
    find its start node. *)
Definition snap_distance {N} `{Number N} (startLat startLng : N)
    (node : Node N) : N :=
  (Math_pow2 (lat node - startLat) + Math_pow2 (lon node - startLng))%num.

(** Every distance on record is the key of an entry that is in the
    queue or has been popped ([P] lists the popped entries). *)
Definition accounted {N} (P : list (N * string)) (st : SearchState)
    : Prop :=
  forall v dv,
    JsMap.get (distances st) v = Some dv ->
    In (dv, v) (pq st) \/ In (dv, v) P.

(** Every edge that leaves a popped and expanded entry has been
    relaxed: the distance on record at its target is at most the
    entry's key plus the weight. *)
Definition relaxed {N} `{Number N} (g : GraphData N) (maxTimeSeconds : N)
    (P : list (N * string)) (st : SearchState) : Prop :=
  forall x e,
    In x P -> (maxTimeSeconds <? fst x)%num = false ->
    In e (neighbors_of g (snd x)) ->
    exists dv, JsMap.get (distances st) (target e) = Some dv
               /\ num_le dv (fst x + weight e)%num.

(** ** Stand-ins for running the pipeline on the rationals

    [Math] has no rational instance; to run the whole pipeline on a
    concrete answer the small-angle forms [sin x = x], [cos x = 1] are
    used, with [sqrt] and [atan2] replaced by their first argument.
    Only the concrete runs below use them. *)
Definition small_angle_math : MathLib Q := {|
  Math_PI := 22 # 7;
  Math_sin := fun x => x;
  Math_cos := fun _ => 1;
  Math_sqrt := fun x => x;
  Math_atan2 := fun y _ => y
|}.

(** Three points in a row joined by one way. *)
Definition three_in_a_row : list (RawElement Q) :=
  [RawNode 1 1 1; RawNode 2 1 (1001 # 1000); RawNode 3 1 (1002 # 1000);
   RawWay 10 (Some [1; 2; 3]%Z)].

(** A hull library whose two functions always throw. *)
Definition failing_turf {N : Type} : Turf N (list (N * N)) := {|
  turf_concave := fun _ _ => Throws;
  turf_convex := fun _ => Throws
|}.

(** ** App: the history callbacks *)

(** [array.filter((x, i) => f(x, i))], with [i] counted from [start]. *)
Fixpoint filter_indexed {A : Type} (f : A -> nat -> bool) (start : nat)
    (l : list A) : list A :=
  match l with
  | [] => []
  | x :: l' =>
      if f x start then x :: filter_indexed f (S start) l'
      else filter_indexed f (S start) l'
  end.

(** [onRemoveItem]: [setHistory(h => h.filter((_, i) => i !== idx))]. *)
Definition onRemoveItem {A : Type} (idx : nat) (h : list A) : list A :=
  filter_indexed (fun _ i => negb (Nat.eqb i idx)) 0 h.

(** ** The numbers of the source: IEEE 754 doubles

    A JavaScript number is a binary64 float; [+], [-], [*], [/],
    [Math.sqrt] and [<] on it are the primitive operations of
    [PrimFloat], which round to nearest and compare as [false] with
    NaN.  [Math.sin], [Math.cos] and [Math.atan2] are not among the
    primitives: a [Math] on doubles takes them as arguments. *)

Section Doubles.
Import PrimFloat.

(** An integer literal; exact below [2^53]. *)
Fixpoint double_of_pos (p : positive) : float :=
  match p with
  | xH => 1%float
  | xO p' => (2 * double_of_pos p')%float
  | xI p' => (2 * double_of_pos p' + 1)%float
  end.

Definition double_of_Z (z : Z) : float :=
  match z with
  | Z0 => 0%float
  | Zpos p => double_of_pos p
  | Zneg p => (- double_of_pos p)%float
  end.

(** A decimal literal: the double nearest to the fraction. *)
Definition double_of_Q (q : Q) : float :=
  (double_of_Z (Qnum q) / double_of_Z (Zpos (Qden q)))%float.

#[export] Instance Number_double : Number float := {|
  num_of_Q := double_of_Q;
  num_add := PrimFloat.add;
  num_sub := PrimFloat.sub;
  num_mul := PrimFloat.mul;
  num_div := PrimFloat.div;
  num_ltb := PrimFloat.ltb
|}.

(** [Math] on doubles, given its three transcendental functions. *)
Definition double_math (dsin dcos : float -> float)
    (datan2 : float -> float -> float) : MathLib float := {|
  Math_PI := 0x1.921fb54442d18p+1%float;     (* 3.141592653589793 *)
  Math_sin := dsin;
  Math_cos := dcos;
  Math_sqrt := PrimFloat.sqrt;
  Math_atan2 := datan2
|}.

(** Two points that are nearly antipodes, at 87.5 degrees south and
    north and 180 degrees of longitude apart, joined by one way. *)
Definition antipodal_way : list (RawElement float) :=
  [RawNode 1 (-87.5)%float 0%float; RawNode 2 87.5%float 180%float;
   RawWay 10 (Some [1; 2]%Z)].

(** The values of [Math.sin], [Math.cos] and [Math.atan2] at the
    arguments that [getDistance] reaches on [antipodal_way]: the sine
    and the cosine of the four angles, and the arc tangent of a NaN,
    which is NaN.  Elsewhere the three functions below are not
    meant. *)
Definition sin_at_antipodes (x : float) : float :=
  if PrimFloat.eqb x 0x1.86f4291ecf2f3p+0%float    (* 1.5271630954950381 *)
  then 0x1.ff833f9da45f7p-1%float                  (* 0.9990482215818578 *)
  else if PrimFloat.eqb x 0x1.921fb54442d18p+0%float   (* 1.5707963267948966 *)
  then 1%float
  else nan.

Definition cos_at_antipodes (x : float) : float :=
  if PrimFloat.eqb (PrimFloat.abs x) 0x1.86f4291ecf2f3p+0%float
  then 0x1.65547c4694e32p-5%float                  (* 0.04361938736533623 *)
  else nan.

Definition atan2_at_antipodes (y x : float) : float :=
  if PrimFloat.eqb x x && PrimFloat.eqb y y then 0%float else nan.

End Doubles.

(** ** The specification's weight

    The haversine formula and the conversion of the mode's speed from
    km/h into m/s, written in the operations of the carrier. *)

Section SpecWeight.
Context {N : Type} `{Number N} `{MathLib N}.

Definition to_radians (degrees : N) : N :=
  (degrees * Math_PI / num_of_Z 180)%num.

Definition haversine_meters (lat1 lon1 lat2 lon2 : N) : N :=
  let half_dphi := (to_radians (lat2 - lat1) / num_of_Z 2)%num in
  let half_dlambda := (to_radians (lon2 - lon1) / num_of_Z 2)%num in
  let a := (Math_sin half_dphi * Math_sin half_dphi
            + Math_cos (to_radians lat1) * Math_cos (to_radians lat2)
              * Math_sin half_dlambda * Math_sin half_dlambda)%num in
  let c := (num_of_Z 2
            * Math_atan2 (Math_sqrt a) (Math_sqrt (num_of_Z 1 - a)))%num in
  (num_of_Z 6371000 * c)%num.

Definition speed_kmh (mode : TransportMode) : N :=
  match mode with
  | WALKING => num_of_Z 5
  | CYCLING => num_of_Z 15
  | DRIVING => num_of_Z 40
  end.

Definition speed_mps (mode : TransportMode) : N :=
  (speed_kmh mode * num_of_Z 1000 / num_of_Z 3600)%num.

End SpecWeight.

(** ** The hull library's contract *)

(** Two coordinates that the order cannot tell apart. *)
Definition num_eqb {N} `{Number N} (a b : N) : bool :=
  negb (a <? b)%num && negb (b <? a)%num.

Definition point_eqb {N} `{Number N} (p q : N * N) : bool :=
  num_eqb (fst p) (fst q) && num_eqb (snd p) (snd q).

(** The distinct points of a collection, each at its last
    occurrence. *)
Fixpoint distinct_coordinates {N} `{Number N} (pts : list (N * N))
    : list (N * N) :=
  match pts with
  | [] => []
  | p :: rest =>
      if existsb (point_eqb p) rest then distinct_coordinates rest
      else p :: distinct_coordinates rest
  end.

(** Modelled from the spec: the hull library ([turf.concave] and
    [turf.convex]), which the repository imports and does not contain.
    The specification has fewer than 3 distinct points unable to form
    an area, with [null] as the result: the concave hull gives no
    feature for such a collection (it returns [null] or fails) and the
    convex hull returns [null]. *)
Class TurfNeedsArea (N Feature : Type) `{Number N} `{Turf N Feature}
    : Prop := {
  concave_needs_area : forall (pts : list (N * N)) (maxEdge : N) hull,
    (List.length (distinct_coordinates pts) < 3)%nat ->
    turf_concave pts maxEdge <> Returns (Some hull);
  convex_needs_area : forall pts : list (N * N),
    (List.length (distinct_coordinates pts) < 3)%nat ->
    turf_convex pts = Returns None
}.

(** A hull library under that contract: no feature from fewer than 3
    distinct points, the ring of the points otherwise. *)
Definition area_turf {N : Type} `{Number N} : Turf N (list (N * N)) := {|
  turf_concave := fun pts _ =>
    if (List.length (distinct_coordinates pts) <? 3)%nat
    then Returns None else Returns (Some pts);
  turf_convex := fun pts =>
    if (List.length (distinct_coordinates pts) <? 3)%nat
    then Returns None else Returns (Some pts)
|}.

(* ================================================================== *)
(** * Part II. Properties *)
(* ================================================================== *)

(** ** The carriers are ordered *)

Lemma Qltb_false (a b : Q) : num_ltb a b = false <-> (b <= a)%Q.
Proof.
  cbn. rewrite negb_false_iff. apply Qle_bool_iff.
Qed.

Lemma Qltb_true (a b : Q) : num_ltb a b = true <-> (a < b)%Q.
Proof.
  cbn. rewrite negb_true_iff. split; intros Hab.
  - apply Qnot_le_lt. intros Hle. apply Qle_bool_iff in Hle. congruence.
  - destruct (Qle_bool b a) eqn:E; [|reflexivity].
    apply Qle_bool_iff in E. exfalso. apply (Qlt_not_le _ _ Hab E).
Qed.

#[export] Instance OrderedNumber_Q : OrderedNumber Q.
Proof.
  split; unfold num_le, num_of_Z; intros;
    change (@num_of_Q Q _ (inject_Z 0)) with 0%Q in *;
    change (@num_add Q _) with Qplus in *;
    change (@num_sub Q _) with Qminus in *.
  - apply Qltb_false. apply Qle_refl.
  - apply Qltb_false. apply Qltb_false in H, H0. eapply Qle_trans; eauto.
  - apply Qltb_false. apply Qltb_true in H. apply Qlt_le_weak; assumption.
  - destruct (num_ltb a b) eqn:E.
    + apply Qltb_true. apply Qltb_true in E. lra.
    + apply Qltb_false. apply Qltb_false in E. lra.
  - apply Qltb_false. apply Qltb_false in H. lra.
  - apply Qltb_false. apply Qltb_false in H. lra.
Qed.

Lemma Rltb_false (a b : R) : num_ltb a b = false <-> (b <= a)%R.
Proof.
  cbn. unfold Rltb. destruct (Rlt_dec a b); split; intros; try lra;
    congruence.
Qed.

Lemma Rltb_true (a b : R) : num_ltb a b = true <-> (a < b)%R.
Proof.
  cbn. unfold Rltb. destruct (Rlt_dec a b); split; intros; try lra;
    congruence.
Qed.

#[export] Instance OrderedNumber_R : OrderedNumber R.
Proof.
  assert (H0 : Q2R (inject_Z 0) = 0%R) by (unfold Q2R; cbn; lra).
  split; unfold num_le, num_of_Z; intros;
    change (@num_of_Q R _ (inject_Z 0)) with (Q2R (inject_Z 0)) in *;
    rewrite ?H0 in *;
    change (@num_add R _) with Rplus in *;
    change (@num_sub R _) with Rminus in *.
  - apply Rltb_false. lra.
  - apply Rltb_false. apply Rltb_false in H, H1. lra.
  - apply Rltb_false. apply Rltb_true in H. lra.
  - destruct (num_ltb a b) eqn:E.
    + apply Rltb_true. apply Rltb_true in E. lra.
    + apply Rltb_false. apply Rltb_false in E. lra.
  - apply Rltb_false. apply Rltb_false in H. lra.
  - apply Rltb_false. apply Rltb_false in H. lra.
Qed.

(** ** Maps *)

Section JsMapFacts.
Context {V : Type}.

Lemma get_set_eq (m : JsMap.t V) k v :
  JsMap.get (JsMap.set m k v) k = Some v.
Proof.
  induction m as [|[k' v'] m IH]; simpl.
  - now rewrite String.eqb_refl.
  - destruct (String.eqb k' k) eqn:E; simpl; rewrite E; auto.
Qed.

Lemma get_set_ne (m : JsMap.t V) k k' v :
  k <> k' -> JsMap.get (JsMap.set m k v) k' = JsMap.get m k'.
Proof.
  intros Hne. induction m as [|[k0 v0] m IH]; simpl.
  - destruct (String.eqb k k') eqn:E; auto.
    apply String.eqb_eq in E. contradiction.
  - destruct (String.eqb k0 k) eqn:E; simpl.
    + apply String.eqb_eq in E. subst k0.
      destruct (String.eqb k k') eqn:E'; auto.
      apply String.eqb_eq in E'. contradiction.
    + destruct (String.eqb k0 k'); auto.
Qed.

Lemma get_set (m : JsMap.t V) k k' v :
  JsMap.get (JsMap.set m k v) k' =
  if String.eqb k k' then Some v else JsMap.get m k'.
Proof.
  destruct (String.eqb k k') eqn:E.
  - apply String.eqb_eq in E. subst. apply get_set_eq.
  - apply String.eqb_neq in E. now apply get_set_ne.
Qed.

Lemma get_In (m : JsMap.t V) k v :
  JsMap.get m k = Some v -> In (k, v) m.
Proof.
  induction m as [|[k' v'] m IH]; simpl; [discriminate|].
  destruct (String.eqb k' k) eqn:E; intros Hg.
  - apply String.eqb_eq in E. inversion Hg. subst. now left.
  - right. auto.
Qed.

Lemma has_true (m : JsMap.t V) k :
  JsMap.has m k = true <-> exists v, JsMap.get m k = Some v.
Proof.
  unfold JsMap.has. destruct (JsMap.get m k); split; intros Hh;
    try discriminate; eauto.
  destruct Hh as [? Hh]. discriminate.
Qed.

End JsMapFacts.

(** ** The priority queue *)

Section QueueFacts.
Context {N : Type} `{Number N}.

Lemma pq_insert_In (x z : N * string) l :
  In z (pq_insert x l) <-> z = x \/ In z l.
Proof.
  induction l as [|y l IH]; simpl.
  - intuition.
  - destruct (pq_compare y x <? num_of_Z 0)%num; simpl.
    + rewrite IH. intuition.
    + intuition.
Qed.

Lemma pq_sort_In (z : N * string) l : In z (pq_sort l) <-> In z l.
Proof.
  induction l as [|x l IH]; simpl; [tauto|].
  rewrite pq_insert_In, IH. intuition.
Qed.

Lemma pq_insert_length (x : N * string) l :
  List.length (pq_insert x l) = S (List.length l).
Proof.
  induction l as [|y l IH]; simpl; auto.
  destruct (pq_compare y x <? num_of_Z 0)%num; simpl; auto.
Qed.

Lemma pq_sort_length (l : list (N * string)) :
  List.length (pq_sort l) = List.length l.
Proof.
  induction l as [|x l IH]; simpl; auto.
  now rewrite pq_insert_length, IH.
Qed.

Lemma pq_sort_nil (l : list (N * string)) : pq_sort l = [] -> l = [].
Proof.
  intros Hs. apply (f_equal (@List.length _)) in Hs.
  rewrite pq_sort_length in Hs. now destruct l.
Qed.

Context `{!OrderedNumber N}.

Lemma pq_insert_sorted (x : N * string) l :
  StronglySorted key_le l -> StronglySorted key_le (pq_insert x l).
Proof.
  induction 1 as [|y l Hs IH Hall]; simpl.
  - repeat constructor.
  - destruct (pq_compare y x <? num_of_Z 0)%num eqn:E.
    + constructor; auto.
      apply Forall_forall. intros z Hz. apply pq_insert_In in Hz.
      destruct Hz as [->|Hz].
      * unfold pq_compare in E. rewrite num_sub_neg in E.
        now apply num_lt_le.
      * rewrite Forall_forall in Hall. auto.
    + unfold pq_compare in E. rewrite num_sub_neg in E.
      constructor; [now constructor|].
      constructor; [exact E|].
      rewrite Forall_forall in *. intros z Hz.
      unfold key_le. eapply num_le_trans; [exact E|]. now apply Hall.
Qed.

Lemma pq_sort_sorted (l : list (N * string)) :
  StronglySorted key_le (pq_sort l).
Proof.
  induction l as [|x l IH]; simpl; [constructor|].
  now apply pq_insert_sorted.
Qed.

(** After the sort, the entry that [shift] takes has the least key. *)
Lemma pq_sort_head_min (l : list (N * string)) x rest :
  pq_sort l = x :: rest -> forall y, In y rest -> num_le (fst x) (fst y).
Proof.
  intros Hs y Hy. pose proof (pq_sort_sorted l) as Hsorted.
  rewrite Hs in Hsorted. inversion Hsorted as [|? ? _ Hall]; subst.
  rewrite Forall_forall in Hall. now apply Hall.
Qed.

End QueueFacts.

(** ** One iteration of the search *)

Section SearchStep.
Context {N : Type} `{Number N}.
Variable g : GraphData N.
Variable maxTimeSeconds : N.

Lemma loop_body_eq (st : SearchState) d uId rest :
  pq_sort (pq st) = (d, uId) :: rest ->
  loop_body g maxTimeSeconds st =
  if (maxTimeSeconds <? d)%num
  then {| distances := distances st; pq := rest;
          reachableNodes := reachableNodes st |}
  else
    let F := fold_left (relax d) (neighbors_of g uId) (distances st, rest) in
    {| distances := fst F; pq := snd F;
       reachableNodes := reachableNodes st ++ node_of g (d, uId) |}.
Proof.
  intros Hs. unfold loop_body. rewrite Hs.
  destruct (maxTimeSeconds <? d)%num; [reflexivity|].
  cbv zeta. destruct (fold_left _ _ _) as [dist q]. unfold node_of. simpl.
  destruct (JsMap.get (nodes g) uId); [reflexivity|].
  now rewrite app_nil_r.
Qed.

Lemma relax_queue d dist q e :
  snd (relax d (dist, q) e) = q \/
  snd (relax d (dist, q) e) = q ++ [((d + weight e)%num, target e)].
Proof.
  unfold relax. destruct (_ || _); simpl; auto.
Qed.

Lemma fold_relax_In d es : forall dist q x,
  In x (snd (fold_left (relax d) es (dist, q))) ->
  In x q \/ exists e, In e es /\ x = ((d + weight e)%num, target e).
Proof.
  induction es as [|e es IH]; intros dist q x Hx; cbn [fold_left] in Hx.
  { simpl in Hx. auto. }
  destruct (relax d (dist, q) e) as [dist' q'] eqn:E.
  apply IH in Hx.
  destruct Hx as [Hx|[e' [He' ->]]];
    [|right; exists e'; split; [now right|reflexivity]].
  pose proof (relax_queue d dist q e) as Hq. rewrite E in Hq. simpl in Hq.
  destruct Hq as [->| ->].
  - now left.
  - apply in_app_or in Hx. destruct Hx as [Hx|[<-|[]]].
    + now left.
    + right. exists e. split; [now left|reflexivity].
Qed.

Lemma fold_relax_length d es : forall dist q,
  (List.length (snd (fold_left (relax d) es (dist, q)))
   <= List.length q + List.length es)%nat.
Proof.
  induction es as [|e es IH]; intros dist q; cbn [fold_left].
  { simpl. lia. }
  destruct (relax d (dist, q) e) as [dist' q'] eqn:E.
  pose proof (relax_queue d dist q e) as Hq. rewrite E in Hq. simpl in Hq.
  specialize (IH dist' q'). cbn [List.length].
  destruct Hq as [->| ->]; [|rewrite length_app in IH; simpl in IH]; lia.
Qed.

(** An entry of the next queue was in this one, or was pushed while
    the neighbours of the popped entry were relaxed. *)
Lemma loop_body_queue (st : SearchState) d uId rest x :
  pq_sort (pq st) = (d, uId) :: rest ->
  In x (pq (loop_body g maxTimeSeconds st)) ->
  In x rest \/
  ((maxTimeSeconds <? d)%num = false /\
   exists e, In e (neighbors_of g uId)
             /\ x = ((d + weight e)%num, target e)).
Proof.
  intros Hs. rewrite (loop_body_eq _ Hs).
  destruct (maxTimeSeconds <? d)%num; simpl; auto.
  intros Hx. apply fold_relax_In in Hx. tauto.
Qed.

Lemma loop_body_reachable (st : SearchState) x rest :
  pq_sort (pq st) = x :: rest ->
  reachableNodes (loop_body g maxTimeSeconds st) =
  reachableNodes st ++ flat_map (node_of g) (expanded maxTimeSeconds [x]).
Proof.
  destruct x as [d uId]. intros Hs. rewrite (loop_body_eq _ Hs). simpl.
  destruct (maxTimeSeconds <? d)%num; simpl; now rewrite ?app_nil_r.
Qed.

(** The nodes returned are those of the expanded pops, in order. *)
Lemma while_loop_reachable fuel : forall st st',
  while_loop fuel g maxTimeSeconds st = Some st' ->
  reachableNodes st' =
  reachableNodes st
  ++ flat_map (node_of g)
       (expanded maxTimeSeconds (pops fuel g maxTimeSeconds st)).
Proof.
  induction fuel as [|fuel IH]; intros st st'; simpl.
  - destruct (pq st); [|discriminate]. intros [= <-].
    now rewrite app_nil_r.
  - destruct (pq st) as [|y q] eqn:Eq.
    + intros [= <-]. simpl. now rewrite app_nil_r.
    + rewrite <- Eq. destruct (pq_sort (pq st)) as [|x rest] eqn:Es.
      { apply pq_sort_nil in Es. congruence. }
      intros Hw. apply IH in Hw. rewrite Hw.
      rewrite (loop_body_reachable _ Es), <- app_assoc.
      f_equal. unfold expanded. simpl.
      destruct (negb _); simpl; rewrite ?app_nil_r; reflexivity.
Qed.

(** Every popped entry was in the queue of some iteration. *)
Lemma pops_queues fuel : forall st x,
  In x (pops fuel g maxTimeSeconds st) ->
  exists q, In q (queues fuel g maxTimeSeconds st) /\ In x q.
Proof.
  induction fuel as [|fuel IH]; intros st x; simpl; [tauto|].
  destruct (pq_sort (pq st)) as [|y rest] eqn:Es; [intros []|].
  assert (Hy : In y (pq st)) by (apply pq_sort_In; rewrite Es; now left).
  intros [<-|Hx].
  - exists (pq st). auto.
  - destruct (pq st) eqn:Eq; [destruct Hy|]. rewrite <- Eq in *.
    apply IH in Hx. destruct Hx as [q [Hq Hx]]. exists q. auto.
Qed.

End SearchStep.

(** ** Queue entries are path lengths *)

Section SearchPaths.
Context {N : Type} `{Number N}.
Variable g : GraphData N.
Variable maxTimeSeconds : N.
Variable s : string.

Lemma loop_body_walks (st : SearchState) :
  (forall x, In x (pq st) -> walk g s (snd x) (fst x)) ->
  forall x, In x (pq (loop_body g maxTimeSeconds st)) ->
            walk g s (snd x) (fst x).
Proof.
  intros Hst x. destruct (pq_sort (pq st)) as [|[d uId] rest] eqn:Es.
  - unfold loop_body. rewrite Es. auto.
  - intros Hx. eapply loop_body_queue in Hx; [|exact Es].
    destruct Hx as [Hx|[_ [e [He ->]]]].
    + apply Hst. apply pq_sort_In. rewrite Es. now right.
    + simpl. apply walk_step with (u := uId); [|exact He].
      apply (Hst (d, uId)). apply pq_sort_In. rewrite Es. now left.
Qed.

Lemma queues_walks fuel : forall st,
  (forall x, In x (pq st) -> walk g s (snd x) (fst x)) ->
  forall q x, In q (queues fuel g maxTimeSeconds st) -> In x q ->
              walk g s (snd x) (fst x).
Proof.
  induction fuel as [|fuel IH]; intros st Hst q x; simpl.
  - intros [<-|[]]. auto.
  - intros [<-|Hq]; [auto|].
    destruct (pq st) eqn:Eq; [destruct Hq|]. rewrite <- Eq in *.
    eapply IH; [|exact Hq]. now apply loop_body_walks.
Qed.

Lemma initial_state_walks x :
  In x (pq (initial_state s)) -> walk g s (snd x) (fst x).
Proof.
  simpl. intros [<-|[]]. simpl. constructor.
Qed.

(** Every entry taken from the queue is the length of a path from
    the start node to the entry's node. *)
Lemma pops_walks fuel x :
  In x (pops fuel g maxTimeSeconds (initial_state s)) ->
  walk g s (snd x) (fst x).
Proof.
  intros Hx. apply pops_queues in Hx. destruct Hx as [q [Hq Hx]].
  eapply queues_walks; eauto. apply initial_state_walks.
Qed.

End SearchPaths.

(** ** Termination on non-negative weights *)

Section SearchTermination.
Context {N : Type} `{Number N} `{!OrderedNumber N}.
Variable g : GraphData N.
Variable maxTimeSeconds : N.
Hypothesis weights_ok : nonneg_weights g.

Lemma relax_lowers d dist q e v dv :
  JsMap.get dist v = Some dv ->
  exists dv', JsMap.get (fst (relax d (dist, q) e)) v = Some dv'
              /\ num_le dv' dv.
Proof.
  intros Hv. unfold relax.
  destruct (negb (JsMap.has dist (target e)) || _) eqn:E; simpl.
  - rewrite get_set. destruct (String.eqb (target e) v) eqn:Ev.
    + apply String.eqb_eq in Ev. subst v.
      unfold JsMap.has in E. rewrite Hv in E. simpl in E.
      eexists; split; [reflexivity|]. now apply num_lt_le.
    + exists dv. split; [assumption|apply num_le_refl].
  - exists dv. split; [assumption|apply num_le_refl].
Qed.

Lemma relax_bounds d dist q e :
  exists dv', JsMap.get (fst (relax d (dist, q) e)) (target e) = Some dv'
              /\ num_le dv' (d + weight e)%num.
Proof.
  unfold relax.
  destruct (negb (JsMap.has dist (target e)) || _) eqn:E; simpl.
  - rewrite get_set_eq. eexists; split; [reflexivity|apply num_le_refl].
  - apply orb_false_iff in E. destruct E as [Eh Elt].
    unfold JsMap.has in Eh.
    destruct (JsMap.get dist (target e)) as [dv|]; [|discriminate].
    exists dv. split; [reflexivity|exact Elt].
Qed.

Lemma fold_relax_lowers d es : forall dist q v dv,
  JsMap.get dist v = Some dv ->
  exists dv', JsMap.get (fst (fold_left (relax d) es (dist, q))) v = Some dv'
              /\ num_le dv' dv.
Proof.
  induction es as [|e es IH]; intros dist q v dv Hv; cbn [fold_left].
  - exists dv. split; [assumption|apply num_le_refl].
  - destruct (@relax_lowers d dist q e v dv Hv) as [dv1 [H1 Hle1]].
    destruct (relax d (dist, q) e) as [dist1 q1]. simpl in H1.
    destruct (IH dist1 q1 v dv1 H1) as [dv2 [H2 Hle2]].
    exists dv2. split; [assumption|]. eapply num_le_trans; eauto.
Qed.

Lemma fold_relax_bounds d es : forall dist q e,
  In e es ->
  exists dv', JsMap.get (fst (fold_left (relax d) es (dist, q))) (target e)
              = Some dv'
              /\ num_le dv' (d + weight e)%num.
Proof.
  induction es as [|e0 es IH]; intros dist q e He; [destruct He|].
  cbn [fold_left]. destruct He as [->|He].
  - destruct (relax_bounds d dist q e) as [dv1 [H1 Hle1]].
    destruct (relax d (dist, q) e) as [dist1 q1]. simpl in H1.
    destruct (@fold_relax_lowers d es dist1 q1 _ _ H1) as [dv2 [H2 Hle2]].
    exists dv2. split; [assumption|]. eapply num_le_trans; eauto.
  - destruct (relax d (dist, q) e0) as [dist1 q1]. now apply IH.
Qed.

(** A node whose edges cannot lower any distance pushes nothing. *)
Lemma fold_relax_id d es : forall dist q,
  (forall e, In e es ->
     exists dv, JsMap.get dist (target e) = Some dv
                /\ num_le dv (d + weight e)%num) ->
  fold_left (relax d) es (dist, q) = (dist, q).
Proof.
  induction es as [|e es IH]; intros dist q Hes; [reflexivity|].
  cbn [fold_left].
  assert (E : relax d (dist, q) e = (dist, q)).
  { destruct (Hes e (or_introl eq_refl)) as [dv [Hv Hle]].
    unfold relax, JsMap.has. rewrite Hv. simpl.
    unfold num_le in Hle. now rewrite Hle. }
  rewrite E. apply IH. intros e' He'. apply Hes. now right.
Qed.

Lemma pending_step (X : list string) k (es : list (Edge N)) adj :
  pending X ((k, es) :: adj) =
  ((if existsb (String.eqb k) X then 0 else List.length es)
   + pending X adj)%nat.
Proof. reflexivity. Qed.

Lemma pending_cons_le (u : string) X (adj : JsMap.t (list (Edge N))) :
  (pending (u :: X) adj <= pending X adj)%nat.
Proof.
  induction adj as [|[k es] adj IH]; [apply Nat.le_refl|].
  rewrite !pending_step. cbn [existsb].
  destruct (String.eqb k u); simpl;
    destruct (existsb (String.eqb k) X); lia.
Qed.

Lemma pending_cons (u : string) X (adj : JsMap.t (list (Edge N))) :
  ~ In u X ->
  (List.length (edges_at adj u) + pending (u :: X) adj
   <= pending X adj)%nat.
Proof.
  intros Hu. unfold edges_at.
  induction adj as [|[k es] adj IH]; [apply Nat.le_refl|].
  rewrite !pending_step. cbn [existsb JsMap.get].
  destruct (String.eqb k u) eqn:E; cbn [orb].
  - apply String.eqb_eq in E. subst k.
    assert (Ex : existsb (String.eqb u) X = false).
    { apply not_true_is_false. intros Hex. apply existsb_exists in Hex.
      destruct Hex as [y [Hy Heq]]. apply String.eqb_eq in Heq.
      subst y. contradiction. }
    rewrite Ex. pose proof (pending_cons_le u X adj) as Hle. lia.
  - destruct (existsb (String.eqb k) X); lia.
Qed.

(** One iteration keeps some set of nodes settled and lowers the
    measure: either the popped node was settled and pushes nothing,
    or it becomes settled and pushes at most one entry per edge. *)
Lemma loop_body_progress X (st : SearchState) :
  pq st <> [] ->
  settled g X st ->
  exists X',
    settled g X' (loop_body g maxTimeSeconds st) /\
    (List.length (pq (loop_body g maxTimeSeconds st))
     + pending X' (adjacency g)
     < List.length (pq st) + pending X (adjacency g))%nat.
Proof.
  intros Hne Hset.
  destruct (pq_sort (pq st)) as [|[d u] rest] eqn:Es.
  { apply pq_sort_nil in Es. contradiction. }
  assert (Hlen : List.length (pq st) = S (List.length rest)).
  { rewrite <- pq_sort_length, Es. reflexivity. }
  assert (Hrest : forall x, In x rest -> In x (pq st)).
  { intros x Hx. apply pq_sort_In. rewrite Es. now right. }
  assert (Hhead : In (d, u) (pq st)).
  { apply pq_sort_In. rewrite Es. now left. }
  rewrite (loop_body_eq g maxTimeSeconds st Es).
  destruct (maxTimeSeconds <? d)%num.
  - exists X. split; [|simpl; lia].
    intros u0 e x Hu0 He Hx. simpl in Hx |- *.
    apply (Hset u0 e x); auto.
  - destruct (in_dec string_dec u X) as [Hu|Hu].
    + rewrite fold_relax_id.
      * exists X. split; [|simpl; lia].
        intros u0 e x Hu0 He Hx. simpl in Hx |- *.
        apply (Hset u0 e x); auto.
      * intros e He. exact (Hset u e (d, u) Hu He Hhead).
    + exists (u :: X). cbv zeta. split.
      * intros u0 e x Hu0 He Hx. cbn [pq distances] in Hx |- *.
        assert (Hk : num_le d (fst x)).
        { apply fold_relax_In in Hx. destruct Hx as [Hx|[e' [He' ->]]].
          - apply (pq_sort_head_min _ Es _ Hx).
          - simpl. apply num_add_nonneg. exact (weights_ok u e' He'). }
        assert (Hd : exists dv,
                   JsMap.get
                     (fst (fold_left (relax d) (neighbors_of g u)
                             (distances st, rest))) (target e) = Some dv
                   /\ num_le dv (d + weight e)%num).
        { destruct Hu0 as [<-|Hu0].
          - now apply fold_relax_bounds.
          - destruct (Hset u0 e (d, u) Hu0 He Hhead) as [dv [Hv Hle]].
            destruct (@fold_relax_lowers d (neighbors_of g u)
                        (distances st) rest _ _ Hv) as [dv' [Hv' Hle']].
            exists dv'. split; [assumption|].
            eapply num_le_trans; eauto. }
        destruct Hd as [dv [Hv Hle]]. exists dv. split; [assumption|].
        eapply num_le_trans; [exact Hle|]. now apply num_add_mono.
      * cbn [pq].
        pose proof (fold_relax_length d (neighbors_of g u)
                      (distances st) rest) as Hq.
        pose proof (pending_cons u X (adjacency g) Hu) as Hp.
        unfold neighbors_of in *. lia.
Qed.

(** With as many iterations as the measure, the loop ends. *)
Lemma while_loop_terminates fuel : forall X (st : SearchState),
  settled g X st ->
  (List.length (pq st) + pending X (adjacency g) <= fuel)%nat ->
  (exists st', while_loop fuel g maxTimeSeconds st = Some st') /\
  (List.length (pops fuel g maxTimeSeconds st)
   <= List.length (pq st) + pending X (adjacency g))%nat.
Proof.
  induction fuel as [|fuel IH]; intros X st Hset Hm.
  - destruct (pq st) eqn:Eq; simpl in Hm; [|lia].
    simpl. rewrite Eq. split; [eauto|lia].
  - destruct (pq st) as [|y q] eqn:Eq.
    + simpl. rewrite Eq. simpl. split; [eauto|lia].
    + assert (Hne : pq st <> []) by congruence.
      destruct (loop_body_progress Hne Hset) as [X' [Hset' Hlt]].
      rewrite Eq in Hlt.
      destruct (IH X' _ Hset') as [Hex Hpops]; [lia|].
      split.
      * simpl. rewrite Eq. exact Hex.
      * cbn [pops]. destruct (pq_sort (pq st)); cbn [List.length] in *; lia.
Qed.

Lemma settled_initial (s : string) : settled g [] (initial_state s).
Proof. intros u e x []. Qed.

(** The search started at [s] ends within [1 + edge_count g]
    iterations. *)
Lemma search_terminates (s : string) :
  (exists st',
     while_loop (1 + edge_count g) g maxTimeSeconds (initial_state s)
     = Some st') /\
  (List.length (pops (1 + edge_count g) g maxTimeSeconds (initial_state s))
   <= 1 + edge_count g)%nat.
Proof.
  assert (Hp : pending [] (adjacency g) = edge_count g) by reflexivity.
  destruct (@while_loop_terminates (1 + edge_count g) []
              (initial_state s) (@settled_initial s)) as [Hex Hpops].
  - rewrite Hp. simpl. lia.
  - split; [exact Hex|]. rewrite Hp in Hpops. simpl in Hpops |- *. lia.
Qed.

End SearchTermination.

(** ** More iterations change nothing once the loop has ended *)

Section SearchFuel.
Context {N : Type} `{Number N}.
Variable g : GraphData N.
Variable maxTimeSeconds : N.

Lemma while_loop_more_fuel fuel : forall fuel' (st st' : SearchState),
  while_loop fuel g maxTimeSeconds st = Some st' ->
  (fuel <= fuel')%nat ->
  while_loop fuel' g maxTimeSeconds st = Some st'.
Proof.
  induction fuel as [|fuel IH]; intros fuel' st st' Hw Hle.
  - simpl in Hw. destruct (pq st) eqn:Eq; [|discriminate].
    destruct fuel'; simpl; now rewrite Eq.
  - destruct fuel' as [|fuel']; [lia|]. simpl in *.
    destruct (pq st); [assumption|]. apply IH; [assumption|lia].
Qed.

Lemma pops_more_fuel fuel : forall fuel' (st st' : SearchState),
  while_loop fuel g maxTimeSeconds st = Some st' ->
  (fuel <= fuel')%nat ->
  pops fuel' g maxTimeSeconds st = pops fuel g maxTimeSeconds st.
Proof.
  induction fuel as [|fuel IH]; intros fuel' st st' Hw Hle.
  - simpl in Hw. destruct (pq st) eqn:Eq; [|discriminate].
    destruct fuel'; simpl; [reflexivity|]. now rewrite Eq.
  - destruct fuel' as [|fuel']; [lia|]. simpl in *.
    destruct (pq st) as [|y q] eqn:Eq.
    + reflexivity.
    + rewrite <- Eq in *. destruct (pq_sort (pq st)); [reflexivity|].
      f_equal. eapply IH; [eassumption|lia].
Qed.

Lemma calculateDijkstra_more_fuel fuel fuel' lat0 lng0 res :
  calculateDijkstra fuel g lat0 lng0 maxTimeSeconds = Some res ->
  (fuel <= fuel')%nat ->
  calculateDijkstra fuel' g lat0 lng0 maxTimeSeconds = Some res.
Proof.
  unfold calculateDijkstra. destruct (start_node g lat0 lng0); [|auto].
  destruct (while_loop fuel _ _ _) as [st'|] eqn:Ew; [|discriminate].
  intros [= <-] Hle.
  now rewrite (while_loop_more_fuel _ Ew Hle).
Qed.

Lemma nonneg_weightsb_sound :
  nonneg_weightsb g = true -> nonneg_weights g.
Proof.
  unfold nonneg_weightsb, nonneg_weights, neighbors_of, edges_at.
  intros Hb k e He.
  destruct (JsMap.get (adjacency g) k) as [es|] eqn:Eg; [|destruct He].
  apply get_In in Eg. rewrite forallb_forall in Hb.
  specialize (Hb _ Eg). simpl in Hb. rewrite forallb_forall in Hb.
  specialize (Hb _ He). now apply negb_true_iff in Hb.
Qed.

End SearchFuel.

(** ** The search: claims *)

Section SearchClaims.
Local Open Scope Q_scope.




(** C2, as stated, fails.  On the triangle, searched from A with a
    budget of 5 s, relaxing the edge from A to B puts the entry
    (10 s, B) into the queue. *)
Lemma C2_entry_beyond_budget_enqueued :
  start_node triangle 0 0 = Some "A"%string /\
  In [(10, "B"); (1, "C")]%string (queues 10 triangle 5 (initial_state "A")) /\
  (5 <? 10)%num = true.
Proof.
  repeat split; try (vm_compute; reflexivity).
  vm_compute. right. left. reflexivity.
Qed.

(** C2, amended.  The budget is tested when an entry is taken from the
    queue, not when it is put in: an entry whose distance exceeds
    [maxTimeSeconds] is dropped at that point, and the iteration
    changes neither the distances nor the nodes collected, and pushes
    nothing. *)
Theorem C2_pruned_when_popped :
  forall (N : Type) (HN : Number N) (g : GraphData N) (maxTimeSeconds : N)
         (st : SearchState) (d : N) (uId : string) (rest : list (N * string)),
    pq_sort (pq st) = (d, uId) :: rest ->
    (maxTimeSeconds <? d)%num = true ->
    loop_body g maxTimeSeconds st
    = {| distances := distances st; pq := rest;
         reachableNodes := reachableNodes st |}.
Proof.
  intros N HN g maxTimeSeconds st d uId rest Hs Hd.
  rewrite (loop_body_eq g maxTimeSeconds st Hs), Hd. reflexivity.
Qed.

Lemma C2_pruned_when_popped_witness :
  let st := {| distances := [("A", 0); ("B", 10)]%string;
               pq := [(10, "B")]%string;
               reachableNodes := [mkNode "A" 0 0] |} in
  pq_sort (pq st) = [(10, "B")]%string /\
  (5 <? 10)%num = true /\
  loop_body triangle 5 st
  = {| distances := distances st; pq := [];
       reachableNodes := reachableNodes st |}.
Proof.
  intros st.
  assert (Hs : pq_sort (pq st) = [(10, "B")]%string) by reflexivity.
  assert (Hd : (5 <? 10)%num = true) by reflexivity.
  split; [exact Hs|]. split; [exact Hd|].
  exact (@C2_pruned_when_popped Q _ triangle 5 st 10 "B"%string [] Hs Hd).
Defined.

(** C3, as stated, fails.  On the line of five nodes with 300 s edges,
    searched from the first node with the budget of 15 minutes, the
    result is not the first three nodes. *)
Lemma C3_not_first_three :
  start_node line5 0 0 = Some "1"%string /\
  calculateDijkstra 9 line5 0 0 (num_of_Z 15 * num_of_Z 60)%num
  <> Some [mkNode "1" 0 0; mkNode "2" 0 1; mkNode "3" 0 2].
Proof.
  split; [vm_compute; reflexivity|].
  vm_compute. discriminate.
Qed.

(** C3, amended.  On that graph and budget the search returns the
    first four nodes: the fourth is reached after exactly 900 s, which
    the test [d > maxTimeSeconds] lets through; only the fifth, at
    1200 s, is left out. *)
Theorem C3_line_graph_first_four :
  forall fuel : nat,
    (5 <= fuel)%nat ->
    calculateDijkstra fuel line5 0 0 (num_of_Z 15 * num_of_Z 60)%num
    = Some [mkNode "1" 0 0; mkNode "2" 0 1; mkNode "3" 0 2; mkNode "4" 0 3].
Proof.
  intros fuel Hfuel.
  apply calculateDijkstra_more_fuel with (fuel := 5%nat); [|exact Hfuel].
  vm_compute. reflexivity.
Qed.

Lemma C3_line_graph_first_four_witness :
  (5 <= 9)%nat /\
  calculateDijkstra 9 line5 0 0 (num_of_Z 15 * num_of_Z 60)%num
  = Some [mkNode "1" 0 0; mkNode "2" 0 1; mkNode "3" 0 2; mkNode "4" 0 3].
Proof.
  split; [lia|]. apply (@C3_line_graph_first_four 9%nat). lia.
Defined.

(** C5.  On a graph with non-negative weights the search ends, and
    every node it returns was taken from the queue with a distance
    [d <= maxTimeSeconds]; [d] is the length of a path from the start
    node to that node, so whatever bounds all path lengths to the node
    from below, the shortest-path time among them, is
    [<= maxTimeSeconds] too. *)
Theorem C5_returned_nodes_within_budget :
  forall (N : Type) (HN : Number N) (HO : OrderedNumber N)
         (g : GraphData N) (startLat startLng maxTimeSeconds : N),
    nonneg_weights g ->
    exists res,
      calculateDijkstra (1 + edge_count g) g startLat startLng maxTimeSeconds
      = Some res /\
      forall n, In n res ->
        exists s uId d,
          start_node g startLat startLng = Some s /\
          In (d, uId)
             (pops (1 + edge_count g) g maxTimeSeconds (initial_state s)) /\
          JsMap.get (nodes g) uId = Some n /\
          num_le d maxTimeSeconds /\
          walk g s uId d /\
          (forall sp, (forall d', walk g s uId d' -> num_le sp d') ->
                      num_le sp maxTimeSeconds).
Proof.
  intros N HN HO g startLat startLng maxTimeSeconds Hw.
  unfold calculateDijkstra.
  destruct (start_node g startLat startLng) as [s|] eqn:Hs.
  2:{ exists []. split; [reflexivity|]. intros n []. }
  destruct (search_terminates maxTimeSeconds Hw s) as [[st' Hst'] _].
  rewrite Hst'. exists (reachableNodes st'). split; [reflexivity|].
  intros n Hn. erewrite while_loop_reachable in Hn; [|exact Hst'].
  apply in_app_or in Hn. destruct Hn as [Hn|Hn]; [destruct Hn|].
  apply in_flat_map in Hn. destruct Hn as [[d uId] [Hx Hn]].
  unfold expanded in Hx. apply filter_In in Hx. destruct Hx as [Hx Hd].
  simpl in Hd. apply negb_true_iff in Hd.
  unfold node_of in Hn. simpl in Hn.
  destruct (JsMap.get (nodes g) uId) as [uNode|] eqn:Hg; [|destruct Hn].
  destruct Hn as [<-|[]].
  assert (Hwalk : walk g s uId d).
  { eapply pops_walks in Hx. exact Hx. }
  exists s, uId, d. repeat split; auto.
  intros sp Hsp. eapply num_le_trans; [apply Hsp; exact Hwalk|exact Hd].
Qed.

Lemma C5_returned_nodes_within_budget_witness :
  nonneg_weights line5 /\
  exists res,
    calculateDijkstra (1 + edge_count line5) line5 0 0 900 = Some res /\
    forall n, In n res ->
      exists s uId d,
        start_node line5 0 0 = Some s /\
        In (d, uId) (pops (1 + edge_count line5) line5 900 (initial_state s)) /\
        JsMap.get (nodes line5) uId = Some n /\
        num_le d 900 /\
        walk line5 s uId d /\
        (forall sp, (forall d', walk line5 s uId d' -> num_le sp d') ->
                    num_le sp 900).
Proof.
  assert (Hw : nonneg_weights line5)
    by (apply nonneg_weightsb_sound; vm_compute; reflexivity).
  split; [exact Hw|].
  exact (@C5_returned_nodes_within_budget Q _ _ line5 0 0 900 Hw).
Defined.

End SearchClaims.

(** ** The hull generator: claims *)

Section HullClaims.
Local Open Scope Q_scope.

(** What [generateHull] returns on three or more entries is decided by
    the hull library alone. *)
Lemma generateHull_delegates :
  forall (N Feature : Type) (HN : Number N) (HT : Turf N Feature)
         (nodes : list (Node N)) (maxTimeSeconds : N),
    (3 <= List.length nodes)%nat ->
    generateHull nodes maxTimeSeconds
    = match turf_concave (map (fun n => (lon n, lat n)) nodes)
              (num_of_Q (1 # 10)) with
      | Returns (Some hull) => Returns (Some hull)
      | _ => turf_convex (map (fun n => (lon n, lat n)) nodes)
      end.
Proof.
  intros N Feature HN HT nodes maxTimeSeconds Hlen. unfold generateHull.
  destruct (List.length nodes <? 3)%nat eqn:E.
  { apply Nat.ltb_lt in E. lia. }
  destruct (turf_concave _ _) as [[hull|]|]; try reflexivity.
  destruct (turf_convex _); reflexivity.
Qed.

(** When the hull library finds no concave hull (or fails) and no
    convex hull, [generateHull] returns [null]. *)
Lemma generateHull_null_from_library :
  forall (N Feature : Type) (HN : Number N) (HT : Turf N Feature)
         (nodes : list (Node N)) (maxTimeSeconds : N),
    (forall hull,
       turf_concave (map (fun n => (lon n, lat n)) nodes) (num_of_Q (1 # 10))
       <> Returns (Some hull)) ->
    turf_convex (map (fun n => (lon n, lat n)) nodes) = Returns None ->
    generateHull nodes maxTimeSeconds = Returns None.
Proof.
  intros N Feature HN HT nodes maxTimeSeconds Hconcave Hconvex.
  unfold generateHull. destruct (List.length nodes <? 3)%nat; [reflexivity|].
  cbv zeta. rewrite Hconvex.
  destruct (turf_concave _ _) as [[hull|]|]; try reflexivity.
  now destruct (Hconcave hull).
Qed.

(** For every input of fewer than 3 entries [generateHull] returns
    [null], whatever the hull library does: the guard
    [nodes.length < 3] returns before the library is called. *)
Lemma generateHull_fewer_than_three_entries :
  forall (N Feature : Type) (HN : Number N) (HT : Turf N Feature)
         (nodes : list (Node N)) (maxTimeSeconds : N),
    (List.length nodes < 3)%nat ->
    generateHull nodes maxTimeSeconds = Returns None.
Proof.
  intros N Feature HN HT nodes maxTimeSeconds Hlen. unfold generateHull.
  apply Nat.ltb_lt in Hlen. now rewrite Hlen.
Qed.

Lemma distinct_coordinates_length (N : Type) (HN : Number N)
    (pts : list (N * N)) :
  (List.length (distinct_coordinates pts) <= List.length pts)%nat.
Proof.
  induction pts as [|p rest IH]; simpl; [lia|].
  destruct (existsb (point_eqb p) rest); simpl; lia.
Qed.

#[export] Instance area_turf_needs_area (N : Type) (HN : Number N) :
  @TurfNeedsArea N (list (N * N)) HN area_turf.
Proof.
  split; intros; cbn [turf_concave turf_convex area_turf].
  - apply Nat.ltb_lt in H. rewrite H. discriminate.
  - apply Nat.ltb_lt in H. now rewrite H.
Qed.



(** C10.  The second argument of [generateHull] is never read: the
    result is the same for any two values of it. *)
Theorem C10_hull_ignores_second_argument :
  forall (N Feature : Type) (HN : Number N) (HT : Turf N Feature)
         (nodes : list (Node N)) (t1 t2 : N),
    generateHull nodes t1 = generateHull nodes t2.
Proof.
  intros. reflexivity.
Qed.

End HullClaims.

(** ** The pipeline: claims *)

Section PipelineClaims.
Local Open Scope Q_scope.

(** C8.  When the Overpass server answers with no elements, the graph
    built has no nodes, the search on it returns no node, the hull of
    no node is [null], and [calculateIsochrone] leaves the history as
    it was: it raises the "could not generate" alert, or has returned
    at its guard when [lat] or [lng] is falsy. *)
Theorem C8_empty_network_end_to_end :
  forall (N Feature : Type) (HN : Number N) (HM : MathLib N)
         (HT : Turf N Feature) (fetch : Overpass N) (fuel : nat)
         (customParams : option (IsochroneParams N))
         (stateParams : IsochroneParams N)
         (history : list (IsochroneResult N Feature))
         (lat0 lng0 radiusMeters maxTimeSeconds : N) (mode : TransportMode)
         (adj : JsMap.t (list (Edge N))),
    (forall m bbox,
       fetch m bbox = Returns {| resp_ok := true; resp_elements := [] |}) ->
    fetchRoadNetwork fetch lat0 lng0 radiusMeters mode
    = Returns {| nodes := []; adjacency := [] |} /\
    JsMap.size (nodes (build_graph [] mode)) = 0%nat /\
    calculateDijkstra fuel {| nodes := []; adjacency := adj |}
      lat0 lng0 maxTimeSeconds = Some [] /\
    generateHull (Feature := Feature) [] maxTimeSeconds = Returns None /\
    calculateIsochrone fuel fetch customParams stateParams history
    = Some (let p := match customParams with
                     | Some p => p
                     | None => stateParams
                     end in
            if num_falsy (p_lat p) || num_falsy (p_lng p)
            then Skipped else AlertSparse,
            history).
Proof.
  intros N Feature HN HM HT fetch fuel customParams stateParams history
         lat0 lng0 radiusMeters maxTimeSeconds mode adj Hfetch.
  assert (Hnet : forall la ln r m,
             fetchRoadNetwork fetch la ln r m
             = Returns {| nodes := []; adjacency := [] |}).
  { intros. unfold fetchRoadNetwork. rewrite Hfetch. reflexivity. }
  repeat split; try reflexivity; [apply Hnet|].
  unfold calculateIsochrone. cbv zeta.
  destruct (num_falsy _ || num_falsy _); [reflexivity|].
  rewrite Hnet. reflexivity.
Qed.

Lemma C8_empty_network_end_to_end_witness :
  (forall m bbox,
     @empty_overpass R m bbox
     = Returns {| resp_ok := true; resp_elements := [] |}) /\
  @calculateIsochrone R _ _ _ ring_turf 0 empty_overpass None
    {| p_lat := 1%R; p_lng := 2%R; p_mode := WALKING; p_minutes := 15%R |} []
  = Some (if num_falsy 1%R || num_falsy 2%R then Skipped else AlertSparse, []).
Proof.
  assert (Hf : forall m bbox,
             @empty_overpass R m bbox
             = Returns {| resp_ok := true; resp_elements := [] |})
    by reflexivity.
  split; [exact Hf|].
  exact (proj2 (proj2 (proj2 (proj2
    (@C8_empty_network_end_to_end R _ _ _ ring_turf empty_overpass 0 None
       {| p_lat := 1%R; p_lng := 2%R; p_mode := WALKING; p_minutes := 15%R |}
       [] 1%R 2%R 1875%R 900%R WALKING [] Hf))))).
Defined.

End PipelineClaims.

(** ** The graph builder *)

Section BuilderFacts.
Context {N : Type} `{Number N} `{MathLib N}.

Lemma edges_at_set (adj : JsMap.t (list (Edge N))) k v k' :
  edges_at (JsMap.set adj k v) k'
  = if String.eqb k k' then v else edges_at adj k'.
Proof.
  unfold edges_at. rewrite get_set. now destruct (String.eqb k k').
Qed.

Lemma edges_at_ensure_key (adj : JsMap.t (list (Edge N))) k k' :
  edges_at (ensure_key adj k) k' = edges_at adj k'.
Proof.
  unfold ensure_key. destruct (JsMap.has adj k) eqn:E; [reflexivity|].
  rewrite edges_at_set. destruct (String.eqb k k') eqn:E'; [|reflexivity].
  apply String.eqb_eq in E'. subst k'. unfold edges_at, JsMap.has in *.
  now destruct (JsMap.get adj k).
Qed.

Lemma has_ensure_key (adj : JsMap.t (list (Edge N))) k :
  JsMap.has (ensure_key adj k) k = true.
Proof.
  unfold ensure_key. destruct (JsMap.has adj k) eqn:E; [assumption|].
  unfold JsMap.has. now rewrite get_set_eq.
Qed.

Lemma has_ensure_key_other (adj : JsMap.t (list (Edge N))) k k' :
  JsMap.has adj k' = true -> JsMap.has (ensure_key adj k) k' = true.
Proof.
  unfold ensure_key. destruct (JsMap.has adj k); [auto|].
  unfold JsMap.has. rewrite get_set. now destruct (String.eqb k k').
Qed.

Lemma edges_at_push_edge (adj : JsMap.t (list (Edge N))) k e k' :
  JsMap.has adj k = true ->
  edges_at (push_edge adj k e) k'
  = edges_at adj k' ++ (if String.eqb k k' then [e] else []).
Proof.
  unfold push_edge, JsMap.has.
  destruct (JsMap.get adj k) as [es|] eqn:E; [intros _|discriminate].
  rewrite edges_at_set. destruct (String.eqb k k') eqn:E'.
  - apply String.eqb_eq in E'. subst k'. unfold edges_at. now rewrite E.
  - now rewrite app_nil_r.
Qed.

Lemma has_push_edge (adj : JsMap.t (list (Edge N))) k e k' :
  JsMap.has adj k' = true -> JsMap.has (push_edge adj k e) k' = true.
Proof.
  unfold push_edge. destruct (JsMap.get adj k); [|auto].
  unfold JsMap.has. rewrite get_set. now destruct (String.eqb k k').
Qed.

Variable nodes0 : JsMap.t (Node N).
Variable mode : TransportMode.

(** A segment appends its two entries and touches nothing else. *)
Lemma add_segment_edges_at adj seg k :
  edges_at (add_segment nodes0 mode adj seg) k
  = edges_at adj k ++ segment_edges nodes0 mode seg k.
Proof.
  unfold add_segment, segment_edges. cbv zeta.
  destruct (JsMap.get nodes0 (toString (fst seg))) as [u|];
    [|now rewrite app_nil_r].
  destruct (JsMap.get nodes0 (toString (snd seg))) as [v|];
    [|now rewrite app_nil_r].
  rewrite edges_at_push_edge.
  2:{ apply has_push_edge, has_ensure_key. }
  rewrite edges_at_push_edge.
  2:{ apply has_ensure_key_other, has_ensure_key. }
  rewrite !edges_at_ensure_key. now rewrite app_assoc.
Qed.

Lemma fold_add_segment_grows segs : forall adj k e,
  In e (edges_at adj k) ->
  In e (edges_at (fold_left (add_segment nodes0 mode) segs adj) k).
Proof.
  induction segs as [|seg segs IH]; intros adj k e He; [exact He|].
  cbn [fold_left]. apply IH. rewrite add_segment_edges_at.
  apply in_or_app. now left.
Qed.

Lemma fold_add_segment_adds segs : forall adj seg k e,
  In seg segs ->
  In e (segment_edges nodes0 mode seg k) ->
  In e (edges_at (fold_left (add_segment nodes0 mode) segs adj) k).
Proof.
  induction segs as [|seg0 segs IH]; intros adj seg k e Hseg He;
    [destruct Hseg|].
  cbn [fold_left]. destruct Hseg as [->|Hseg].
  - apply fold_add_segment_grows. rewrite add_segment_edges_at.
    apply in_or_app. now right.
  - now apply IH with (seg := seg).
Qed.

Lemma parse_way_grows adj el k e :
  In e (edges_at adj k) ->
  In e (edges_at (parse_way nodes0 mode adj el) k).
Proof.
  destruct el as [| ? [ids|] |]; simpl; auto.
  apply fold_add_segment_grows.
Qed.

Lemma fold_parse_way_grows els : forall adj k e,
  In e (edges_at adj k) ->
  In e (edges_at (fold_left (parse_way nodes0 mode) els adj) k).
Proof.
  induction els as [|el els IH]; intros adj k e He; [exact He|].
  cbn [fold_left]. apply IH. now apply parse_way_grows.
Qed.

Lemma fold_parse_way_adds els : forall adj wid ids seg k e,
  In (RawWay wid (Some ids)) els ->
  In seg (segments ids) ->
  In e (segment_edges nodes0 mode seg k) ->
  In e (edges_at (fold_left (parse_way nodes0 mode) els adj) k).
Proof.
  induction els as [|el els IH]; intros adj wid ids seg k e Hel Hseg He;
    [destruct Hel|].
  cbn [fold_left]. destruct Hel as [->|Hel].
  - apply fold_parse_way_grows. simpl.
    now apply fold_add_segment_adds with (seg := seg).
  - now apply IH with (wid := wid) (ids := ids) (seg := seg).
Qed.

Lemma segments_nth (ids : list Z) : forall i p q,
  nth_error ids i = Some p ->
  nth_error ids (S i) = Some q ->
  In (p, q) (segments ids).
Proof.
  induction ids as [|a ids IH]; intros i p q Hp Hq;
    [destruct i; discriminate|].
  destruct ids as [|b ids]; [destruct i; discriminate|].
  destruct i as [|i]; simpl in Hp, Hq.
  - inversion Hp. inversion Hq. subst. now left.
  - right. apply (IH i); assumption.
Qed.

(** The invariant is kept by every segment. *)
Variable weight_ok : N -> Prop.
Hypothesis weights_ok : forall la1 lo1 la2 lo2,
  weight_ok (getDistance la1 lo1 la2 lo2 / speedMS mode)%num.

Lemma add_segment_invariant adj seg :
  graph_invariant weight_ok {| nodes := nodes0; adjacency := adj |} ->
  graph_invariant weight_ok
    {| nodes := nodes0; adjacency := add_segment nodes0 mode adj seg |}.
Proof.
  intros Hok k e He. cbn [adjacency nodes] in *.
  rewrite add_segment_edges_at in He. apply in_app_or in He.
  destruct He as [He|He].
  - destruct (Hok k e He) as (Hs & Hhs & Hht & Hrev & Hw).
    cbn [adjacency nodes] in *. repeat split; auto.
    rewrite add_segment_edges_at. apply in_or_app. now left.
  - unfold segment_edges in He.
    destruct (JsMap.get nodes0 (toString (fst seg))) as [u|] eqn:Eu;
      [|destruct He].
    destruct (JsMap.get nodes0 (toString (snd seg))) as [v|] eqn:Ev;
      [|destruct He].
    assert (Hu : JsMap.has nodes0 (toString (fst seg)) = true)
      by (unfold JsMap.has; now rewrite Eu).
    assert (Hv : JsMap.has nodes0 (toString (snd seg)) = true)
      by (unfold JsMap.has; now rewrite Ev).
    cbv zeta in He. apply in_app_or in He. destruct He as [He|He].
    + destruct (String.eqb (toString (fst seg)) k) eqn:Ek; [|destruct He].
      destruct He as [<-|[]]. apply String.eqb_eq in Ek.
      cbn [source target weight reverse_edge]. repeat split; auto.
      rewrite add_segment_edges_at. apply in_or_app. right.
      unfold segment_edges, reverse_edge. rewrite Eu, Ev. cbv zeta.
      apply in_or_app. right. rewrite String.eqb_refl. now left.
    + destruct (String.eqb (toString (snd seg)) k) eqn:Ek; [|destruct He].
      destruct He as [<-|[]]. apply String.eqb_eq in Ek.
      cbn [source target weight reverse_edge]. repeat split; auto.
      rewrite add_segment_edges_at. apply in_or_app. right.
      unfold segment_edges, reverse_edge. rewrite Eu, Ev. cbv zeta.
      apply in_or_app. left. rewrite String.eqb_refl. now left.
Qed.

Lemma fold_add_segment_invariant segs : forall adj,
  graph_invariant weight_ok {| nodes := nodes0; adjacency := adj |} ->
  graph_invariant weight_ok
    {| nodes := nodes0;
       adjacency := fold_left (add_segment nodes0 mode) segs adj |}.
Proof.
  induction segs as [|seg segs IH]; intros adj Hok; [exact Hok|].
  cbn [fold_left]. apply IH. now apply add_segment_invariant.
Qed.

Lemma fold_parse_way_invariant els : forall adj,
  graph_invariant weight_ok {| nodes := nodes0; adjacency := adj |} ->
  graph_invariant weight_ok
    {| nodes := nodes0;
       adjacency := fold_left (parse_way nodes0 mode) els adj |}.
Proof.
  induction els as [|el els IH]; intros adj Hok; [exact Hok|].
  cbn [fold_left]. apply IH.
  destruct el as [| ? [ids|] |]; simpl; auto.
  now apply fold_add_segment_invariant.
Qed.

End BuilderFacts.

(** ** The graph builder: claims *)

Section BuilderClaims.

Lemma build_graph_invariant :
  forall (N : Type) (HN : Number N) (HM : MathLib N)
         (weight_ok : N -> Prop) (mode : TransportMode),
    (forall la1 lo1 la2 lo2,
       weight_ok (getDistance la1 lo1 la2 lo2 / speedMS mode)%num) ->
    forall elements, graph_invariant weight_ok (build_graph elements mode).
Proof.
  intros N HN HM weight_ok mode Hw elements. unfold build_graph.
  apply fold_parse_way_invariant; [exact Hw|]. intros k e [].
Qed.

Lemma parse_nodes_keeps (N : Type) (els : list (RawElement N)) :
  forall (m : JsMap.t (Node N)) k,
    JsMap.has m k = true -> JsMap.has (fold_left parse_node els m) k = true.
Proof.
  induction els as [|el els IH]; intros m k Hk; [exact Hk|].
  cbn [fold_left]. apply IH. destruct el as [i la lo| |]; simpl; auto.
  unfold JsMap.has. rewrite get_set.
  now destruct (String.eqb (toString i) k).
Qed.

(** Every point element of the list is a key of [nodes]. *)
Lemma parse_nodes_has (N : Type) (els : list (RawElement N)) :
  forall (m : JsMap.t (Node N)) i la lo,
    In (RawNode i la lo) els ->
    JsMap.has (fold_left parse_node els m) (toString i) = true.
Proof.
  induction els as [|el els IH]; intros m i la lo Hel; [destruct Hel|].
  cbn [fold_left]. destruct Hel as [->|Hel].
  - apply parse_nodes_keeps. simpl. unfold JsMap.has.
    now rewrite get_set_eq.
  - now apply IH with (la := la) (lo := lo).
Qed.

(** The code's distance and speed are the specification's. *)
Lemma getDistance_is_haversine_meters (N : Type) (HN : Number N)
    (HM : MathLib N) (lat1 lon1 lat2 lon2 : N) :
  getDistance lat1 lon1 lat2 lon2 = haversine_meters lat1 lon1 lat2 lon2.
Proof. reflexivity. Qed.

Lemma speedMS_is_speed_mps (N : Type) (HN : Number N) (HM : MathLib N)
    (mode : TransportMode) :
  speedMS mode = speed_mps mode.
Proof. destruct mode; reflexivity. Qed.



(** *** The distance on the reals *)

Lemma num_of_Z_R (z : Z) : @num_of_Z R _ z = IZR z.
Proof.
  unfold num_of_Z. cbn. unfold Q2R. cbn. rewrite Rinv_1. ring.
Qed.

Lemma sin_sqr_range (x : R) : (0 <= sin x * sin x <= 1)%R.
Proof.
  pose proof (sin2_cos2 x) as H2. unfold Rsqr in H2.
  pose proof (Rle_0_sqr (sin x)) as Hs. pose proof (Rle_0_sqr (cos x)) as Hc.
  unfold Rsqr in Hs, Hc. lra.
Qed.

Lemma cos_sqr_range (x : R) : (0 <= cos x * cos x <= 1)%R.
Proof.
  pose proof (sin2_cos2 x) as H2. unfold Rsqr in H2.
  pose proof (Rle_0_sqr (sin x)) as Hs. pose proof (Rle_0_sqr (cos x)) as Hc.
  unfold Rsqr in Hs, Hc. lra.
Qed.

(** The argument of the square roots lies between 0 and 1, whatever the
    coordinates. *)
Lemma hav_sum_range (phi1 phi2 dlambda : R) :
  (0 <= hav (phi2 - phi1) + cos phi1 * cos phi2 * hav dlambda <= 1)%R.
Proof.
  unfold hav.
  set (h := ((phi2 - phi1) / 2)%R). set (m := ((phi1 + phi2) / 2)%R).
  replace phi1 with (m - h)%R by (unfold m, h; field).
  replace phi2 with (m + h)%R by (unfold m, h; field).
  rewrite cos_minus, cos_plus.
  pose proof (sin2_cos2 h) as Hh. pose proof (sin2_cos2 m) as Hm.
  unfold Rsqr in Hh, Hm.
  pose proof (cos_sqr_range h) as Hch. pose proof (cos_sqr_range m) as Hcm.
  pose proof (sin_sqr_range (dlambda / 2)) as Hs.
  assert (E : ((cos m * cos h + sin m * sin h)
               * (cos m * cos h - sin m * sin h)
               * (sin (dlambda / 2) * sin (dlambda / 2))
               = (cos m * cos m + cos h * cos h - 1)
                 * (sin (dlambda / 2) * sin (dlambda / 2)))%R).
  { transitivity ((cos m * cos m * (cos h * cos h)
                   - (sin m * sin m) * (sin h * sin h))
                  * (sin (dlambda / 2) * sin (dlambda / 2)))%R; [ring|].
    replace (sin m * sin m)%R with (1 - cos m * cos m)%R by lra.
    replace (sin h * sin h)%R with (1 - cos h * cos h)%R by lra.
    ring. }
  rewrite E.
  replace (sin h * sin h)%R with (1 - cos h * cos h)%R by lra.
  generalize dependent (sin (dlambda / 2) * sin (dlambda / 2))%R.
  generalize dependent (cos m * cos m)%R.
  generalize dependent (cos h * cos h)%R.
  intros B _ HB A _ HA S HS _.
  assert (H1 : (0 <= (1 - B) * (1 - S))%R) by (apply Rmult_le_pos; lra).
  assert (H2 : (0 <= A * S)%R) by (apply Rmult_le_pos; lra).
  assert (H3 : (0 <= B * (1 - S))%R) by (apply Rmult_le_pos; lra).
  assert (H4 : (0 <= (1 - A) * S)%R) by (apply Rmult_le_pos; lra).
  split; nra.
Qed.

Lemma Ratan2_sqrt_asin (a : R) :
  (0 <= a <= 1)%R -> Ratan2 (sqrt a) (sqrt (1 - a)) = asin (sqrt a).
Proof.
  intros [H0 H1]. unfold Ratan2. destruct H1 as [Hlt|Heq].
  - assert (Hpos : (0 < sqrt (1 - a))%R) by (apply sqrt_lt_R0; lra).
    destruct (Rlt_dec 0 (sqrt (1 - a))); [|contradiction].
    rewrite asin_atan.
    + now rewrite Rsqr_sqrt.
    + split.
      * pose proof (sqrt_pos a). lra.
      * rewrite <- sqrt_1. apply sqrt_lt_1_alt. lra.
  - subst a. replace (1 - 1)%R with 0%R by ring.
    rewrite sqrt_0, sqrt_1, asin_1.
    destruct (Rlt_dec 0 0); [lra|]. destruct (Rlt_dec 0 1); [reflexivity|lra].
Qed.

(** On the reals, [getDistance] is the haversine distance. *)
Lemma getDistance_haversine (lat1 lon1 lat2 lon2 : R) :
  getDistance lat1 lon1 lat2 lon2 = haversine_distance lat1 lon1 lat2 lon2.
Proof.
  unfold getDistance, haversine_distance. cbv zeta.
  change (@num_mul R _) with Rmult. change (@num_div R _) with Rdiv.
  change (@num_add R _) with Rplus. change (@num_sub R _) with Rminus.
  change (@Math_PI R _) with PI. change (@Math_sin R _) with sin.
  change (@Math_cos R _) with cos. change (@Math_sqrt R _) with sqrt.
  change (@Math_atan2 R _) with Ratan2.
  rewrite !num_of_Z_R.
  replace ((lat2 - lat1) * PI / 180)%R
    with (lat2 * PI / 180 - lat1 * PI / 180)%R by field.
  replace ((lon2 - lon1) * PI / 180)%R
    with (lon2 * PI / 180 - lon1 * PI / 180)%R by field.
  fold (hav (lat2 * PI / 180 - lat1 * PI / 180)).
  rewrite (Rmult_assoc (cos _ * cos _)).
  fold (hav (lon2 * PI / 180 - lon1 * PI / 180)).
  rewrite Ratan2_sqrt_asin by apply hav_sum_range.
  ring.
Qed.

(** On the reals the specification's distance is the great-circle
    distance [2 r asin (sqrt a)], and the speeds are 25/18, 25/6 and
    100/9 m/s. *)
Lemma haversine_meters_great_circle (lat1 lon1 lat2 lon2 : R) :
  haversine_meters lat1 lon1 lat2 lon2
  = haversine_distance lat1 lon1 lat2 lon2.
Proof.
  rewrite <- getDistance_is_haversine_meters. apply getDistance_haversine.
Qed.

Lemma speed_mps_values :
  @speed_mps R _ WALKING = (25 / 18)%R /\
  @speed_mps R _ CYCLING = (25 / 6)%R /\
  @speed_mps R _ DRIVING = (100 / 9)%R.
Proof.
  unfold speed_mps, speed_kmh.
  change (@num_mul R _) with Rmult. change (@num_div R _) with Rdiv.
  rewrite !num_of_Z_R. repeat split; field.
Qed.

(** *** Weights in exact arithmetic *)

Lemma Ratan2_nonneg (y x : R) :
  (0 <= y)%R -> (0 <= x)%R -> (0 <= Ratan2 y x)%R.
Proof.
  intros Hy Hx. unfold Ratan2.
  destruct (Rlt_dec 0 x) as [Hpos|Hnpos].
  - assert (Hq : (0 <= y / x)%R).
    { apply Rmult_le_pos; [exact Hy|].
      left. now apply Rinv_0_lt_compat. }
    destruct Hq as [Hq|Hq].
    + rewrite <- atan_0. left. now apply atan_increasing.
    + rewrite <- Hq, atan_0. apply Rle_refl.
  - destruct (Rlt_dec x 0) as [Hneg|_]; [lra|].
    pose proof PI_RGT_0 as Hpi.
    destruct (Rlt_dec 0 y); [lra|].
    destruct (Rlt_dec y 0); lra.
Qed.

Lemma getDistance_nonneg (lat1 lon1 lat2 lon2 : R) :
  (0 <= getDistance lat1 lon1 lat2 lon2)%R.
Proof.
  unfold getDistance. cbv zeta.
  change (@num_mul R _) with Rmult. rewrite !num_of_Z_R.
  apply Rmult_le_pos; [lra|]. apply Rmult_le_pos; [lra|].
  apply Ratan2_nonneg; apply sqrt_pos.
Qed.

Lemma speedMS_pos (mode : TransportMode) : (0 < @speedMS R _ mode)%R.
Proof.
  unfold speedMS, TRANSPORT_SPEEDS.
  change (@num_mul R _) with Rmult. change (@num_div R _) with Rdiv.
  destruct mode; rewrite !num_of_Z_R; lra.
Qed.

Lemma segment_weight_nonneg (mode : TransportMode) (la1 lo1 la2 lo2 : R) :
  (0 <= (getDistance la1 lo1 la2 lo2 / speedMS mode)%num)%R.
Proof.
  change (@num_div R _) with Rdiv. unfold Rdiv.
  apply Rmult_le_pos; [apply getDistance_nonneg|].
  left. apply Rinv_0_lt_compat. apply speedMS_pos.
Qed.

(** In exact arithmetic, with numbers as reals, every graph that
    [fetchRoadNetwork] returns satisfies the invariant with weights
    [>= 0]: the argument of the square roots stays within [0, 1]. *)
Lemma fetched_graph_invariant_exact :
  forall (fetch : Overpass R) (lat0 lng0 radiusMeters : R)
         (mode : TransportMode) (g : GraphData R),
    fetchRoadNetwork fetch lat0 lng0 radiusMeters mode = Returns g ->
    graph_invariant (fun w => (0 <= w)%R) g.
Proof.
  intros fetch lat0 lng0 radiusMeters mode g. unfold fetchRoadNetwork.
  destruct (fetch mode _) as [response|]; [|discriminate].
  destruct (negb (resp_ok response)); [discriminate|].
  intros [= <-]. apply build_graph_invariant.
  apply segment_weight_nonneg.
Qed.

End BuilderClaims.

(** ** Claims decided by double arithmetic *)

Section DoubleClaims.
Import PrimFloat.
Local Open Scope float_scope.

(** C9, as stated, fails.  In the doubles of the source the radius for
    10 minutes of driving is not 9999.9, and the radius is not rounded
    to a whole metre: for 1 minute of cycling it is
    375.00000000000006, strictly between 375 and 376. *)
Lemma C9_radius_not_rounded :
  radius {| p_lat := 1; p_lng := 1; p_mode := DRIVING; p_minutes := 10 |}
  <> 0x1.387f333333333p+13                        (* 9999.9 *) /\
  radius {| p_lat := 1; p_lng := 1; p_mode := CYCLING; p_minutes := 1 |}
  = 0x1.7700000000001p+8                          (* 375.00000000000006 *) /\
  (375 <? radius {| p_lat := 1; p_lng := 1;
                    p_mode := CYCLING; p_minutes := 1 |}) = true /\
  (radius {| p_lat := 1; p_lng := 1;
             p_mode := CYCLING; p_minutes := 1 |} <? 376) = true.
Proof.
  split; [vm_compute; discriminate|].
  repeat split; vm_compute; reflexivity.
Qed.

(** C9, amended.  The radius is [speed_mps * (minutes * 60) * 1.5] with
    [speed_mps = speed_kmh * 1000 / 3600], evaluated in doubles.  For
    10 minutes of driving at 40 km/h, [speed_mps] is 11.11111111111111
    and the radius is exactly 10000.  No rounding follows: the pipeline
    depends on the server only through [fetchRoadNetwork] called with
    that product. *)
Theorem C9_radius_in_doubles :
  (forall p : IsochroneParams float,
     radius p
     = match p_mode p with WALKING => 5 | CYCLING => 15 | DRIVING => 40 end
       * 1000 / 3600 * (p_minutes p * 60) * 1.5) /\
  40 * 1000 / 3600 = 0x1.638e38e38e38ep+3         (* 11.11111111111111 *) /\
  (forall la ln : float,
     radius {| p_lat := la; p_lng := ln; p_mode := DRIVING; p_minutes := 10 |}
     = 10000) /\
  (forall (Feature : Type) (HM : MathLib float) (HT : Turf float Feature)
          (fuel : nat) (fetch fetch' : Overpass float)
          (stateParams p : IsochroneParams float)
          (history : list (IsochroneResult float Feature)),
     fetchRoadNetwork fetch (p_lat p) (p_lng p)
       (match p_mode p with WALKING => 5 | CYCLING => 15 | DRIVING => 40 end
        * 1000 / 3600 * (p_minutes p * 60) * 1.5) (p_mode p)
     = fetchRoadNetwork fetch' (p_lat p) (p_lng p)
         (match p_mode p with WALKING => 5 | CYCLING => 15 | DRIVING => 40 end
          * 1000 / 3600 * (p_minutes p * 60) * 1.5) (p_mode p) ->
     calculateIsochrone fuel fetch (Some p) stateParams history
     = calculateIsochrone fuel fetch' (Some p) stateParams history).
Proof.
  assert (Hformula : forall p : IsochroneParams float,
             radius p
             = match p_mode p with
               | WALKING => 5 | CYCLING => 15 | DRIVING => 40
               end * 1000 / 3600 * (p_minutes p * 60) * 1.5).
  { intros [la ln m mi]. destruct m; vm_compute; reflexivity. }
  split; [exact Hformula|].
  split; [vm_compute; reflexivity|].
  split; [intros; vm_compute; reflexivity|].
  intros Feature HM HT fuel fetch fetch' stateParams p history Hsame.
  unfold calculateIsochrone. cbv zeta.
  destruct (num_falsy _ || num_falsy _); [reflexivity|].
  rewrite (Hformula p), Hsame. reflexivity.
Qed.

(** C7 fails on the code.  For two points that are nearly antipodes the
    argument [a] of the square roots rounds to 1.0000000000000002,
    above 1: [Math.sqrt(1 - a)] is NaN, and so are the distance and the
    weight of both entries of the segment.  NaN is not [>= 0].  The
    values of [Math.sin] and [Math.cos] at the four angles of this run,
    and [Math.atan2] of a NaN, are the hypotheses. *)
Theorem C7_near_antipodal_weight_is_nan :
  forall (dsin dcos : float -> float) (datan2 : float -> float -> float)
         (mode : TransportMode),
    dsin 0x1.86f4291ecf2f3p+0 = 0x1.ff833f9da45f7p-1 ->
    dsin 0x1.921fb54442d18p+0 = 1 ->
    dcos (- 0x1.86f4291ecf2f3p+0) = 0x1.65547c4694e32p-5 ->
    dcos 0x1.86f4291ecf2f3p+0 = 0x1.65547c4694e32p-5 ->
    (forall y, datan2 y nan = nan) ->
    let M := double_math dsin dcos datan2 in
    let g := @build_graph float _ M antipodal_way mode in
    let a := dsin ((87.5 - (-87.5)) * Math_PI / 180 / 2)
             * dsin ((87.5 - (-87.5)) * Math_PI / 180 / 2)
             + dcos ((-87.5) * Math_PI / 180) * dcos (87.5 * Math_PI / 180)
               * dsin ((180 - 0) * Math_PI / 180 / 2)
               * dsin ((180 - 0) * Math_PI / 180 / 2) in
    a = 0x1.0000000000001p+0 /\
    (1 <? a) = true /\
    sqrt (1 - a) = nan /\
    @getDistance float _ M (-87.5) 0 87.5 180 = nan /\
    neighbors_of g "1"
    = [{| source := "1"; target := "2"; weight := nan |}] /\
    neighbors_of g "2"
    = [{| source := "2"; target := "1"; weight := nan |}] /\
    (0 <=? nan) = false /\
    ~ graph_invariant (fun w => (0 <=? w) = true) g.
Proof.
  intros dsin dcos datan2 mode Hs1 Hs2 Hc1 Hc2 Hatan M g a.
  assert (Ea : a = 0x1.0000000000001p+0).
  { subst a M. vm_compute. rewrite ?Hs1, ?Hs2, ?Hc1, ?Hc2.
    vm_compute. reflexivity. }
  assert (Ed : @getDistance float _ M (-87.5) 0 87.5 180 = nan).
  { subst M. vm_compute. rewrite ?Hs1, ?Hs2, ?Hc1, ?Hc2. vm_compute.
    rewrite ?Hatan. vm_compute. reflexivity. }
  assert (E1 : neighbors_of g "1"
               = [{| source := "1"; target := "2"; weight := nan |}]).
  { subst g M. destruct mode; vm_compute;
      rewrite ?Hs1, ?Hs2, ?Hc1, ?Hc2; vm_compute;
      rewrite ?Hatan; vm_compute; reflexivity. }
  assert (E2 : neighbors_of g "2"
               = [{| source := "2"; target := "1"; weight := nan |}]).
  { subst g M. destruct mode; vm_compute;
      rewrite ?Hs1, ?Hs2, ?Hc1, ?Hc2; vm_compute;
      rewrite ?Hatan; vm_compute; reflexivity. }
  split; [exact Ea|]. rewrite Ea.
  split; [reflexivity|]. split; [reflexivity|].
  split; [exact Ed|].
  split; [exact E1|]. split; [exact E2|]. split; [reflexivity|].
  intros Hinv.
  destruct (Hinv "1"%string {| source := "1"; target := "2"; weight := nan |})
    as (_ & _ & _ & _ & Hw).
  - change (edges_at (adjacency g) "1") with (neighbors_of g "1").
    rewrite E1. now left.
  - cbn in Hw. discriminate.
Qed.

Lemma C7_near_antipodal_weight_is_nan_witness :
  let M := double_math sin_at_antipodes cos_at_antipodes
             atan2_at_antipodes in
  let g := @build_graph float _ M antipodal_way WALKING in
  let a := sin_at_antipodes ((87.5 - (-87.5)) * Math_PI / 180 / 2)
           * sin_at_antipodes ((87.5 - (-87.5)) * Math_PI / 180 / 2)
           + cos_at_antipodes ((-87.5) * Math_PI / 180)
             * cos_at_antipodes (87.5 * Math_PI / 180)
             * sin_at_antipodes ((180 - 0) * Math_PI / 180 / 2)
             * sin_at_antipodes ((180 - 0) * Math_PI / 180 / 2) in
  a = 0x1.0000000000001p+0 /\
  (1 <? a) = true /\
  sqrt (1 - a) = nan /\
  @getDistance float _ M (-87.5) 0 87.5 180 = nan /\
  neighbors_of g "1"
  = [{| source := "1"; target := "2"; weight := nan |}] /\
  neighbors_of g "2"
  = [{| source := "2"; target := "1"; weight := nan |}] /\
  (0 <=? nan) = false /\
  ~ graph_invariant (fun w => (0 <=? w) = true) g.
Proof.
  exact (@C7_near_antipodal_weight_is_nan sin_at_antipodes cos_at_antipodes
           atan2_at_antipodes WALKING
           eq_refl eq_refl eq_refl eq_refl (fun _ => eq_refl)).
Defined.

End DoubleClaims.

(* ================================================================== *)
(** * Part III. Further properties of the services *)
(* ================================================================== *)

(** ** The start node *)

Section StartNode.
Context {N : Type} `{Number N}.
Variable startLat startLng : N.

Lemma nearest_step_snap acc k node :
  nearest_step startLat startLng acc (k, node)
  = if match snd acc with
       | None => true
       | Some minDist => (snap_distance startLat startLng node <? minDist)%num
       end
    then (Some k, Some (snap_distance startLat startLng node))
    else acc.
Proof. reflexivity. Qed.

(** Once an entry has been seen, a candidate is held to the end. *)
Lemma nearest_fold_some (l : list (string * Node N)) : forall k m,
  exists k' m', fold_left (nearest_step startLat startLng) l (Some k, Some m)
                = (Some k', Some m').
Proof.
  induction l as [|[k0 n0] l IH]; intros k m; cbn [fold_left]; [eauto|].
  rewrite nearest_step_snap. cbn [snd].
  destruct (_ <? m)%num; apply IH.
Qed.

Lemma nearest_node_nonempty (g : GraphData N) :
  nodes g <> [] -> exists k, nearest_node g startLat startLng = Some k.
Proof.
  unfold nearest_node. destruct (nodes g) as [|[k0 n0] l]; [congruence|].
  intros _. cbn [fold_left]. rewrite nearest_step_snap. cbn [snd].
  destruct (nearest_fold_some l k0 (snap_distance startLat startLng n0))
    as [k [m E]].
  rewrite E. exists k. reflexivity.
Qed.

Context `{!OrderedNumber N}.

Lemma nearest_fold_min (l : list (string * Node N)) : forall k m k' m',
  fold_left (nearest_step startLat startLng) l (Some k, Some m)
  = (Some k', Some m') ->
  num_le m' m /\
  (forall e, In e l -> num_le m' (snap_distance startLat startLng (snd e))) /\
  ((k' = k /\ m' = m) \/
   exists node, In (k', node) l
                /\ m' = snap_distance startLat startLng node).
Proof.
  induction l as [|[k0 n0] l IH]; intros k m k' m' E; cbn [fold_left] in E.
  - inversion E. subst. split; [apply num_le_refl|]. split; [intros e []|].
    now left.
  - rewrite nearest_step_snap in E. cbn [snd] in E.
    destruct (snap_distance startLat startLng n0 <? m)%num eqn:Elt.
    + destruct (IH _ _ _ _ E) as (Hle & Hall & Hsrc).
      split; [eapply num_le_trans; [exact Hle|now apply num_lt_le]|].
      split.
      * intros e [<-|He]; [exact Hle|now apply Hall].
      * right. destruct Hsrc as [[-> ->]|[node [Hin ->]]].
        -- exists n0. split; [now left|reflexivity].
        -- exists node. split; [now right|reflexivity].
    + destruct (IH _ _ _ _ E) as (Hle & Hall & Hsrc).
      split; [exact Hle|]. split.
      * intros e [<-|He]; [|now apply Hall].
        cbn [snd]. eapply num_le_trans; [exact Hle|exact Elt].
      * destruct Hsrc as [Hsame|[node [Hin ->]]]; [now left|].
        right. exists node. split; [now right|reflexivity].
Qed.

End StartNode.

(** X1.  The start node that [calculateDijkstra] resolves is a key of
    [graph.nodes], and the node stored with it is at least as close to
    the origin, in squared coordinate difference, as every node of the
    graph. *)
Theorem nearest_node_is_closest :
  forall (N : Type) (HN : Number N) (HO : OrderedNumber N)
         (g : GraphData N) (startLat startLng : N) (k : string),
    nearest_node g startLat startLng = Some k ->
    exists node,
      In (k, node) (nodes g) /\
      forall k' node', In (k', node') (nodes g) ->
        num_le (snap_distance startLat startLng node)
               (snap_distance startLat startLng node').
Proof.
  intros N HN HO g startLat startLng k. unfold nearest_node.
  destruct (nodes g) as [|[k0 n0] l]; [discriminate|].
  cbn [fold_left]. rewrite nearest_step_snap. cbn [snd].
  destruct (nearest_fold_some startLat startLng l k0
              (snap_distance startLat startLng n0)) as [k1 [m1 E]].
  rewrite E. cbn [fst]. intros [= ->].
  destruct (nearest_fold_min startLat startLng l _ _ E) as (Hle & Hall & Hsrc).
  destruct Hsrc as [[-> ->]|[node [Hin ->]]].
  - exists n0. split; [now left|].
    intros k' node' [[= <- <-]|Hin]; [apply num_le_refl|].
    exact (Hall (k', node') Hin).
  - exists node. split; [now right|].
    intros k' node' [[= <- <-]|Hin']; [exact Hle|].
    exact (Hall (k', node') Hin').
Qed.

Lemma nearest_node_is_closest_witness :
  nearest_node line5 0%Q (3 # 2)%Q = Some "2"%string /\
  exists node,
    In ("2"%string, node) (nodes line5) /\
    forall k' node', In (k', node') (nodes line5) ->
      num_le (snap_distance 0%Q (3 # 2)%Q node)
             (snap_distance 0%Q (3 # 2)%Q node').
Proof.
  assert (E : nearest_node line5 0%Q (3 # 2)%Q = Some "2"%string)
    by (vm_compute; reflexivity).
  split; [exact E|].
  exact (@nearest_node_is_closest Q _ _ line5 0%Q (3 # 2)%Q "2"%string E).
Defined.


(** ** What the search returns *)

Section SearchResult.
Context {N : Type} `{Number N}.
Variable g : GraphData N.
Variable maxTimeSeconds : N.

Lemma nearest_fold_key startLat startLng (l : list (string * Node N)) :
  forall acc k,
    fst (fold_left (nearest_step startLat startLng) l acc) = Some k ->
    fst acc = Some k \/ exists node, In (k, node) l.
Proof.
  induction l as [|[k0 n0] l IH]; intros acc k E; cbn [fold_left] in E.
  - now left.
  - apply IH in E. destruct E as [E|[node Hin]].
    + rewrite nearest_step_snap in E.
      destruct (match snd acc with None => true | Some _ => _ end).
      * cbn [fst] in E. inversion E. subst. right. exists n0. now left.
      * now left.
    + right. exists node. now right.
Qed.

Lemma In_get {V : Type} (m : JsMap.t V) k v :
  In (k, v) m -> exists v', JsMap.get m k = Some v'.
Proof.
  induction m as [|[k0 v0] m IH]; intros Hin; [destruct Hin|].
  simpl. destruct (String.eqb k0 k) eqn:E; [eauto|].
  destruct Hin as [Heq|Hin]; [|auto].
  inversion Heq. subst. rewrite String.eqb_refl in E. discriminate.
Qed.

Lemma start_node_is_key startLat startLng s :
  start_node g startLat startLng = Some s ->
  exists n, JsMap.get (nodes g) s = Some n.
Proof.
  unfold start_node, nearest_node.
  destruct (fst (fold_left _ _ _)) as [k|] eqn:E; [|discriminate].
  destruct (String.eqb k ""); [discriminate|]. intros [= <-].
  apply nearest_fold_key in E. destruct E as [E|[node Hin]]; [discriminate|].
  eapply In_get; eauto.
Qed.

Lemma pops_initial fuel s :
  pops (S fuel) g maxTimeSeconds (initial_state s)
  = (num_of_Z 0, s)
    :: pops fuel g maxTimeSeconds
         (loop_body g maxTimeSeconds (initial_state s)).
Proof. reflexivity. Qed.

End SearchResult.

(** X2.  Whenever the budget is not negative and the graph has a node,
    the list that [calculateDijkstra] returns begins with the start
    node: the node stored under the key nearest to the origin. *)
Theorem search_returns_start_node_first :
  forall (N : Type) (HN : Number N) (g : GraphData N)
         (startLat startLng maxTimeSeconds : N) (fuel : nat)
         (res : list (Node N)) (s : string),
    start_node g startLat startLng = Some s ->
    num_le (num_of_Z 0) maxTimeSeconds ->
    calculateDijkstra fuel g startLat startLng maxTimeSeconds = Some res ->
    exists n rest, JsMap.get (nodes g) s = Some n /\ res = n :: rest.
Proof.
  intros N HN g startLat startLng maxTimeSeconds fuel res s Hs Hmax.
  destruct (start_node_is_key g _ _ Hs) as [n Hn].
  unfold calculateDijkstra. rewrite Hs.
  destruct (while_loop fuel g maxTimeSeconds (initial_state s))
    as [st'|] eqn:Ew; [|discriminate].
  intros [= <-]. exists n.
  erewrite while_loop_reachable; [|exact Ew].
  destruct fuel as [|fuel]; [discriminate|].
  rewrite pops_initial. unfold expanded. cbn [filter fst].
  unfold num_le in Hmax. rewrite Hmax. cbn [negb flat_map].
  unfold node_of at 1. cbn [snd]. rewrite Hn.
  eexists. split; [reflexivity|]. reflexivity.
Qed.

Lemma search_returns_start_node_first_witness :
  start_node line5 0%Q 0%Q = Some "1"%string /\
  num_le (num_of_Z 0) 900%Q /\
  calculateDijkstra 9 line5 0%Q 0%Q 900%Q
  = Some [mkNode "1" 0 0; mkNode "2" 0 1; mkNode "3" 0 2; mkNode "4" 0 3] /\
  exists n rest,
    JsMap.get (nodes line5) "1" = Some n /\
    [mkNode "1" 0 0; mkNode "2" 0 1; mkNode "3" 0 2; mkNode "4" 0 3]
    = n :: rest.
Proof.
  assert (Hs : start_node line5 0%Q 0%Q = Some "1"%string)
    by (vm_compute; reflexivity).
  assert (Hm : num_le (num_of_Z 0) 900%Q) by (vm_compute; reflexivity).
  assert (Hr : calculateDijkstra 9 line5 0%Q 0%Q 900%Q
               = Some [mkNode "1" 0 0; mkNode "2" 0 1; mkNode "3" 0 2;
                       mkNode "4" 0 3]) by (vm_compute; reflexivity).
  split; [exact Hs|]. split; [exact Hm|]. split; [exact Hr|].
  exact (@search_returns_start_node_first Q _ line5 0%Q 0%Q 900%Q 9%nat
           _ "1"%string Hs Hm Hr).
Defined.

(** X3.  With a negative budget the search returns no node at all: the
    start entry, at distance 0, is already beyond the budget. *)
Theorem search_negative_budget_empty :
  forall (N : Type) (HN : Number N) (g : GraphData N)
         (startLat startLng maxTimeSeconds : N) (fuel : nat),
    (maxTimeSeconds <? num_of_Z 0)%num = true ->
    (1 <= fuel)%nat ->
    calculateDijkstra fuel g startLat startLng maxTimeSeconds = Some [].
Proof.
  intros N HN g startLat startLng maxTimeSeconds fuel Hneg Hfuel.
  unfold calculateDijkstra.
  destruct (start_node g startLat startLng) as [s|]; [|reflexivity].
  destruct fuel as [|fuel]; [lia|]. cbn [while_loop initial_state pq].
  assert (E : pq_sort (pq (initial_state s)) = [(num_of_Z 0, s)])
    by reflexivity.
  rewrite (loop_body_eq g maxTimeSeconds (initial_state s) E), Hneg.
  destruct fuel; reflexivity.
Qed.

Lemma search_negative_budget_empty_witness :
  (num_ltb (-1)%Q (num_of_Z 0) = true) /\ (1 <= 1)%nat /\
  calculateDijkstra 1 triangle 0%Q 0%Q (-1)%Q = Some [].
Proof.
  assert (Hneg : num_ltb (-1)%Q (num_of_Z 0) = true) by reflexivity.
  assert (Hfuel : (1 <= 1)%nat) by lia.
  split; [exact Hneg|]. split; [exact Hfuel|].
  exact (@search_negative_budget_empty Q _ triangle 0%Q 0%Q (-1)%Q 1%nat
           Hneg Hfuel).
Defined.

(** X4.  Every node that [calculateDijkstra] returns is a value of
    [graph.nodes], stored under the id with which it was popped. *)
Theorem search_returns_graph_nodes :
  forall (N : Type) (HN : Number N) (g : GraphData N)
         (startLat startLng maxTimeSeconds : N) (fuel : nat)
         (res : list (Node N)) (n : Node N),
    calculateDijkstra fuel g startLat startLng maxTimeSeconds = Some res ->
    In n res ->
    exists k, JsMap.get (nodes g) k = Some n.
Proof.
  intros N HN g startLat startLng maxTimeSeconds fuel res n.
  unfold calculateDijkstra.
  destruct (start_node g startLat startLng) as [s|].
  2:{ intros [= <-] []. }
  destruct (while_loop fuel g maxTimeSeconds (initial_state s))
    as [st'|] eqn:Ew; [|discriminate].
  intros [= <-] Hn. erewrite while_loop_reachable in Hn; [|exact Ew].
  apply in_app_or in Hn. destruct Hn as [Hn|Hn]; [destruct Hn|].
  apply in_flat_map in Hn. destruct Hn as [[d uId] [_ Hn]].
  unfold node_of in Hn. cbn [snd] in Hn. exists uId.
  destruct (JsMap.get (nodes g) uId); [|destruct Hn].
  destruct Hn as [<-|[]]. reflexivity.
Qed.

Lemma search_returns_graph_nodes_witness :
  calculateDijkstra 10 triangle 0%Q 0%Q 100%Q
  = Some [mkNode "A" 0 0; mkNode "C" 1 1; mkNode "B" 2 0; mkNode "B" 2 0] /\
  In (mkNode "C" 1 1)
     [mkNode "A" 0 0; mkNode "C" 1 1; mkNode "B" 2 0; mkNode "B" 2 0] /\
  exists k, JsMap.get (nodes triangle) k = Some (mkNode "C" 1 1).
Proof.
  assert (Hr : calculateDijkstra 10 triangle 0%Q 0%Q 100%Q
               = Some [mkNode "A" 0 0; mkNode "C" 1 1; mkNode "B" 2 0;
                       mkNode "B" 2 0]) by (vm_compute; reflexivity).
  assert (Hin : In (mkNode "C" 1 1)
                   [mkNode "A" 0 0; mkNode "C" 1 1; mkNode "B" 2 0;
                    mkNode "B" 2 0]) by (simpl; auto).
  split; [exact Hr|]. split; [exact Hin|].
  exact (@search_returns_graph_nodes Q _ triangle 0%Q 0%Q 100%Q 10%nat
           _ _ Hr Hin).
Defined.

(** ** Order and completeness of the search *)

Section SearchOrder.
Context {N : Type} `{Number N} `{!OrderedNumber N}.
Variable g : GraphData N.
Variable maxTimeSeconds : N.
Hypothesis weights_ok : nonneg_weights g.

(** No entry of the next queue is below the entry just popped. *)
Lemma loop_body_keys_above (st : SearchState) x rest y :
  pq_sort (pq st) = x :: rest ->
  In y (pq (loop_body g maxTimeSeconds st)) ->
  num_le (fst x) (fst y).
Proof.
  destruct x as [d uId]. intros Es Hy.
  eapply loop_body_queue in Hy; [|exact Es].
  destruct Hy as [Hy|[_ [e [He ->]]]].
  - exact (pq_sort_head_min _ Es _ Hy).
  - cbn [fst]. apply num_add_nonneg. exact (weights_ok uId e He).
Qed.

Lemma pops_sorted_above fuel : forall (st : SearchState) b,
  (forall y, In y (pq st) -> num_le b (fst y)) ->
  Forall (fun y => num_le b (fst y)) (pops fuel g maxTimeSeconds st) /\
  StronglySorted key_le (pops fuel g maxTimeSeconds st).
Proof.
  induction fuel as [|fuel IH]; intros st b Hb; cbn [pops].
  - split; constructor.
  - destruct (pq_sort (pq st)) as [|x rest] eqn:Es; [split; constructor|].
    assert (Hx : In x (pq st)) by (apply pq_sort_In; rewrite Es; now left).
    destruct (IH (loop_body g maxTimeSeconds st) (fst x)) as [Hall Hsorted].
    { intros y Hy. eapply loop_body_keys_above; eassumption. }
    split.
    + constructor; [now apply Hb|].
      rewrite Forall_forall in *. intros y Hy.
      eapply num_le_trans; [apply Hb; exact Hx|now apply Hall].
    + constructor; assumption.
Qed.

(** *** Bookkeeping along a run *)

Lemma relax_accounted d P dist q e :
  (forall v dv, JsMap.get dist v = Some dv -> In (dv, v) q \/ In (dv, v) P) ->
  forall v dv,
    JsMap.get (fst (relax d (dist, q) e)) v = Some dv ->
    In (dv, v) (snd (relax d (dist, q) e)) \/ In (dv, v) P.
Proof.
  intros Hacc v dv. unfold relax.
  destruct (negb (JsMap.has dist (target e)) || _); cbn [fst snd]; [|auto].
  rewrite get_set. destruct (String.eqb (target e) v) eqn:Ev.
  - apply String.eqb_eq in Ev. subst v. intros [= <-].
    left. apply in_or_app. right. now left.
  - intros Hv. destruct (Hacc v dv Hv) as [Hq|HP]; [|now right].
    left. apply in_or_app. now left.
Qed.

Lemma fold_relax_accounted d P es : forall dist q,
  (forall v dv, JsMap.get dist v = Some dv -> In (dv, v) q \/ In (dv, v) P) ->
  forall v dv,
    JsMap.get (fst (fold_left (relax d) es (dist, q))) v = Some dv ->
    In (dv, v) (snd (fold_left (relax d) es (dist, q))) \/ In (dv, v) P.
Proof.
  induction es as [|e es IH]; intros dist q Hacc; cbn [fold_left].
  - exact Hacc.
  - pose proof (@relax_accounted d P dist q e Hacc) as Hstep.
    destruct (relax d (dist, q) e) as [dist1 q1]. now apply IH.
Qed.

Lemma loop_body_accounted P (st : SearchState) x rest :
  pq_sort (pq st) = x :: rest ->
  accounted P st ->
  accounted (P ++ [x]) (loop_body g maxTimeSeconds st).
Proof.
  destruct x as [d uId]. intros Es Hacc.
  assert (Hstart : forall v dv,
             JsMap.get (distances st) v = Some dv ->
             In (dv, v) rest \/ In (dv, v) (P ++ [(d, uId)])).
  { intros v dv Hv. destruct (Hacc v dv Hv) as [Hq|HP].
    - apply pq_sort_In in Hq. rewrite Es in Hq. destruct Hq as [<-|Hq].
      + right. apply in_or_app. right. now left.
      + now left.
    - right. apply in_or_app. now left. }
  rewrite (loop_body_eq g maxTimeSeconds st Es).
  destruct (maxTimeSeconds <? d)%num.
  - exact Hstart.
  - intros v dv Hv. cbn [distances pq] in *.
    exact (@fold_relax_accounted d _ _ _ _ Hstart v dv Hv).
Qed.

Lemma loop_body_relaxed P (st : SearchState) x rest :
  pq_sort (pq st) = x :: rest ->
  relaxed g maxTimeSeconds P st ->
  relaxed g maxTimeSeconds (P ++ [x]) (loop_body g maxTimeSeconds st).
Proof.
  destruct x as [d uId]. intros Es Hrel y e Hy Hexp He.
  rewrite (loop_body_eq g maxTimeSeconds st Es).
  apply in_app_or in Hy. destruct Hy as [Hy|[<-|[]]].
  - destruct (Hrel y e Hy Hexp He) as [dv [Hv Hle]].
    destruct (maxTimeSeconds <? d)%num; cbn [distances]; [eauto|].
    destruct (@fold_relax_lowers _ _ _ d (neighbors_of g uId)
                (distances st) rest _ _ Hv) as [dv' [Hv' Hle']].
    exists dv'. split; [assumption|]. eapply num_le_trans; eauto.
  - cbn [fst snd] in *. rewrite Hexp. cbn [distances].
    now apply fold_relax_bounds.
Qed.

Lemma while_loop_bookkeeping fuel : forall P (st st' : SearchState),
  accounted P st ->
  relaxed g maxTimeSeconds P st ->
  while_loop fuel g maxTimeSeconds st = Some st' ->
  accounted (P ++ pops fuel g maxTimeSeconds st) st' /\
  relaxed g maxTimeSeconds (P ++ pops fuel g maxTimeSeconds st) st' /\
  pq st' = [].
Proof.
  induction fuel as [|fuel IH]; intros P st st' Hacc Hrel; cbn [while_loop].
  - destruct (pq st) eqn:Eq; [|discriminate]. intros [= <-].
    cbn [pops]. now rewrite app_nil_r.
  - destruct (pq st) as [|y q] eqn:Eq.
    + intros [= <-]. cbn [pops]. rewrite Eq. cbn [pq_sort fold_right].
      now rewrite app_nil_r.
    + cbn [pops].
      destruct (pq_sort (pq st)) as [|x rest] eqn:Es.
      { apply pq_sort_nil in Es. congruence. }
      intros Hw.
      destruct (IH (P ++ [x]) _ _ (loop_body_accounted Es Hacc)
                  (loop_body_relaxed Es Hrel) Hw) as (Ha & Hr & Hq).
      rewrite <- app_assoc in Ha, Hr. auto.
Qed.

Lemma accounted_initial s : accounted [] (initial_state s).
Proof.
  intros v dv. cbn. destruct (String.eqb s v) eqn:E; [|discriminate].
  apply String.eqb_eq in E. subst v. intros [= <-]. left. now left.
Qed.

(** However a node can be reached, it is popped with a key that is no
    longer than that path, provided the path fits the budget. *)
Lemma walk_popped fuel s (st' : SearchState) :
  while_loop fuel g maxTimeSeconds (initial_state s) = Some st' ->
  forall v d,
    walk g s v d -> num_le d maxTimeSeconds ->
    exists k, In (k, v) (pops fuel g maxTimeSeconds (initial_state s))
              /\ num_le k d.
Proof.
  intros Hw.
  destruct (@while_loop_bookkeeping fuel [] _ _ (accounted_initial s)
              (fun x e (Hx : In x []) => match Hx with end) Hw)
    as (Hacc & Hrel & Hq).
  cbn [app] in Hacc, Hrel.
  induction 1 as [|u d e Hwalk IH He]; intros Hd.
  - exists (num_of_Z 0). split; [|apply num_le_refl].
    destruct fuel as [|fuel]; [discriminate|].
    rewrite pops_initial. now left.
  - assert (Hdu : num_le d maxTimeSeconds).
    { eapply num_le_trans; [|exact Hd].
      apply num_add_nonneg. exact (weights_ok u e He). }
    destruct (IH Hdu) as [k [Hk Hkd]].
    assert (Hexp : (maxTimeSeconds <? k)%num = false).
    { change (num_le k maxTimeSeconds). eapply num_le_trans; eauto. }
    destruct (Hrel (k, u) e Hk Hexp He) as [dv [Hv Hle]].
    exists dv. split.
    + destruct (Hacc _ _ Hv) as [Hin|Hin]; [|exact Hin].
      rewrite Hq in Hin. destruct Hin.
    + eapply num_le_trans; [exact Hle|]. cbn [fst].
      now apply num_add_mono.
Qed.

End SearchOrder.

(** X5.  On a graph with non-negative weights, entries leave the queue
    in non-decreasing order of travel time, so the nodes are returned
    nearest first. *)
Theorem search_pops_in_time_order :
  forall (N : Type) (HN : Number N) (HO : OrderedNumber N)
         (g : GraphData N) (maxTimeSeconds : N) (s : string) (fuel : nat),
    nonneg_weights g ->
    StronglySorted key_le (pops fuel g maxTimeSeconds (initial_state s)).
Proof.
  intros N HN HO g maxTimeSeconds s fuel Hw.
  eapply proj2. apply (pops_sorted_above maxTimeSeconds Hw fuel)
    with (b := num_of_Z 0).
  intros y [<-|[]]. apply num_le_refl.
Qed.

Lemma search_pops_in_time_order_witness :
  nonneg_weights triangle /\
  StronglySorted key_le (pops 10 triangle 100%Q (initial_state "A")).
Proof.
  assert (Hw : nonneg_weights triangle)
    by (apply nonneg_weightsb_sound; vm_compute; reflexivity).
  split; [exact Hw|].
  exact (@search_pops_in_time_order Q _ _ triangle 100%Q "A"%string 10%nat Hw).
Defined.

(** X6.  On a graph with non-negative weights the search misses
    nothing: a node of [graph.nodes] to which some path from the start
    node takes no longer than the budget is in the returned list. *)
Theorem search_returns_every_node_within_budget :
  forall (N : Type) (HN : Number N) (HO : OrderedNumber N)
         (g : GraphData N) (startLat startLng maxTimeSeconds : N)
         (s v : string) (d : N) (n : Node N),
    nonneg_weights g ->
    start_node g startLat startLng = Some s ->
    walk g s v d ->
    num_le d maxTimeSeconds ->
    JsMap.get (nodes g) v = Some n ->
    exists res,
      calculateDijkstra (1 + edge_count g) g startLat startLng maxTimeSeconds
      = Some res /\
      In n res.
Proof.
  intros N HN HO g startLat startLng maxTimeSeconds s v d n
         Hw Hs Hwalk Hd Hn.
  destruct (search_terminates maxTimeSeconds Hw s) as [[st' Hst'] _].
  unfold calculateDijkstra. rewrite Hs, Hst'.
  exists (reachableNodes st'). split; [reflexivity|].
  erewrite while_loop_reachable; [|exact Hst'].
  apply in_or_app. right.
  destruct (walk_popped Hw _ Hst' Hwalk Hd) as [k [Hk Hkd]].
  apply in_flat_map. exists (k, v). split.
  - unfold expanded. apply filter_In. split; [exact Hk|].
    cbn [fst]. apply negb_true_iff.
    change (num_le k maxTimeSeconds). eapply num_le_trans; eauto.
  - unfold node_of. cbn [snd]. rewrite Hn. now left.
Qed.

Lemma search_returns_every_node_within_budget_witness :
  nonneg_weights line5 /\
  start_node line5 0%Q 0%Q = Some "1"%string /\
  walk line5 "1" "2" (num_of_Z 0 + 300%Q)%num /\
  num_le (num_of_Z 0 + 300%Q)%num 900%Q /\
  JsMap.get (nodes line5) "2" = Some (mkNode "2" 0 1) /\
  exists res,
    calculateDijkstra (1 + edge_count line5) line5 0%Q 0%Q 900%Q = Some res /\
    In (mkNode "2" 0 1) res.
Proof.
  assert (Hw : nonneg_weights line5)
    by (apply nonneg_weightsb_sound; vm_compute; reflexivity).
  assert (Hs : start_node line5 0%Q 0%Q = Some "1"%string)
    by (vm_compute; reflexivity).
  assert (Hwalk : walk line5 "1" "2" (num_of_Z 0 + 300%Q)%num).
  { apply (walk_step (g := line5) (s := "1"%string) (u := "1"%string)
             (mkEdge "1" "2" 300) (walk_start line5 "1"%string)).
    simpl. auto. }
  assert (Hd : num_le (num_of_Z 0 + 300%Q)%num 900%Q)
    by (vm_compute; reflexivity).
  assert (Hn : JsMap.get (nodes line5) "2" = Some (mkNode "2" 0 1))
    by reflexivity.
  split; [exact Hw|]. split; [exact Hs|]. split; [exact Hwalk|].
  split; [exact Hd|]. split; [exact Hn|].
  exact (@search_returns_every_node_within_budget Q _ _ line5 0%Q 0%Q 900%Q
           "1"%string "2"%string _ _ Hw Hs Hwalk Hd Hn).
Defined.

(** ** The distance *)

Section DistanceFacts.
Local Open Scope R_scope.

Lemma hav_opp (x : R) : hav (- x) = hav x.
Proof.
  unfold hav. replace (- x / 2) with (- (x / 2)) by field.
  rewrite sin_neg. ring.
Qed.

Lemma hav_0 : hav 0 = 0.
Proof.
  unfold hav. replace (0 / 2) with 0 by field. rewrite sin_0. ring.
Qed.

(** X7.  The distance does not depend on the direction of travel, which
    is why the two entries of a segment can share one weight. *)
Theorem getDistance_symmetric :
  forall lat1 lon1 lat2 lon2 : R,
    getDistance lat1 lon1 lat2 lon2 = getDistance lat2 lon2 lat1 lon1.
Proof.
  intros. rewrite !getDistance_haversine. unfold haversine_distance.
  cbv zeta.
  replace (lat1 * PI / 180 - lat2 * PI / 180)
    with (- (lat2 * PI / 180 - lat1 * PI / 180)) by ring.
  replace (lon1 * PI / 180 - lon2 * PI / 180)
    with (- (lon2 * PI / 180 - lon1 * PI / 180)) by ring.
  rewrite !hav_opp.
  rewrite (Rmult_comm (cos (lat2 * PI / 180)) (cos (lat1 * PI / 180))).
  reflexivity.
Qed.

(** X8.  Two coincident points are 0 m apart, so a way segment between
    them weighs 0 s in every mode. *)
Theorem getDistance_coincident_zero :
  forall (lat0 lon0 : R) (mode : TransportMode),
    getDistance lat0 lon0 lat0 lon0 = 0 /\
    (getDistance lat0 lon0 lat0 lon0 / speedMS mode)%num = 0.
Proof.
  intros lat0 lon0 mode.
  assert (E : getDistance lat0 lon0 lat0 lon0 = 0).
  { rewrite getDistance_haversine. unfold haversine_distance. cbv zeta.
    replace (lat0 * PI / 180 - lat0 * PI / 180) with 0 by ring.
    replace (lon0 * PI / 180 - lon0 * PI / 180) with 0 by ring.
    rewrite hav_0. replace (0 + cos (lat0 * PI / 180)
                                * cos (lat0 * PI / 180) * 0) with 0 by ring.
    rewrite sqrt_0, asin_0. ring. }
  split; [exact E|]. rewrite E.
  change (@num_div R _) with Rdiv. unfold Rdiv. ring.
Qed.

End DistanceFacts.

(** ** The node map and the adjacency of a built graph *)

Section IdFacts.

Lemma to_int_not_nil (z : Z) :
  Z.to_int z <> Decimal.Pos Decimal.Nil /\
  Z.to_int z <> Decimal.Neg Decimal.Nil.
Proof.
  destruct z as [|p|p]; simpl; split; try discriminate;
    intros [= E]; exact (DecimalPos.Unsigned.to_uint_nonnil p E).
Qed.

Lemma toString_parses (z : Z) :
  NilZero.int_of_string (toString z) = Some (Z.to_int z).
Proof.
  unfold toString. destruct (to_int_not_nil z) as [Hp Hn].
  now apply NilZero.isi.
Qed.

Lemma toString_inj (a b : Z) : toString a = toString b -> a = b.
Proof.
  intros E. apply (f_equal NilZero.int_of_string) in E.
  rewrite !toString_parses in E. inversion E as [E'].
  rewrite <- (DecimalZ.of_to a), <- (DecimalZ.of_to b). now rewrite E'.
Qed.

Lemma toString_nonempty (z : Z) : toString z <> ""%string.
Proof.
  intros E. pose proof (toString_parses z) as Hp. rewrite E in Hp.
  discriminate.
Qed.

End IdFacts.

(** X10.  The key of a point element determines its id: different ids
    never share a key of [nodes], and no key is the empty string. *)
Theorem toString_keys_distinct :
  forall a b : Z,
    (toString a = toString b -> a = b) /\ toString a <> ""%string.
Proof.
  intros a b. split; [apply toString_inj|apply toString_nonempty].
Qed.

Section NodeMapFacts.
Context {N : Type}.

Lemma In_set {V : Type} (m : JsMap.t V) k v k' v' :
  In (k', v') (JsMap.set m k v) -> (k' = k /\ v' = v) \/ In (k', v') m.
Proof.
  induction m as [|[k0 v0] m IH]; simpl.
  - intros [[= <- <-]|[]]. now left.
  - destruct (String.eqb k0 k) eqn:E; simpl.
    + apply String.eqb_eq in E. subst k0.
      intros [[= <- <-]|Hin]; [now left|right; now right].
    + intros [Heq|Hin]; [right; now left|].
      destruct (IH Hin) as [Hnew|Hold]; [now left|right; now right].
Qed.

Lemma parse_nodes_keys_sound (els : list (RawElement N)) :
  forall (m : JsMap.t (Node N)) k n,
    In (k, n) (fold_left parse_node els m) ->
    In (k, n) m \/
    (id n = k /\ exists i, k = toString i
                           /\ In (RawNode i (lat n) (lon n)) els).
Proof.
  induction els as [|el els IH]; intros m k n Hin; cbn [fold_left] in Hin.
  - now left.
  - apply IH in Hin. destruct Hin as [Hin|(Hid & i & Hk & Hel)].
    + destruct el as [i la lo| |]; cbn [parse_node] in Hin;
        try (now left).
      apply In_set in Hin. destruct Hin as [[-> ->]|Hin]; [|now left].
      right. split; [reflexivity|]. exists i. split; [reflexivity|].
      now left.
    + right. split; [exact Hid|]. exists i. split; [exact Hk|]. now right.
Qed.

Lemma parse_nodes_untouched (post : list (RawElement N)) (i : Z) :
  (forall la lo, ~ In (RawNode i la lo) post) ->
  forall m : JsMap.t (Node N),
    JsMap.get (fold_left parse_node post m) (toString i)
    = JsMap.get m (toString i).
Proof.
  induction post as [|el post IH]; intros Hno m; [reflexivity|].
  cbn [fold_left]. rewrite IH.
  - destruct el as [j la lo| |]; cbn [parse_node]; try reflexivity.
    apply get_set_ne. intros E. apply toString_inj in E. subst j.
    apply (Hno la lo). now left.
  - intros la lo Hin. apply (Hno la lo). now right.
Qed.

End NodeMapFacts.

(** X11.  The keys of the node map of a built graph are exactly the
    ids, as decimal strings, of the point elements of the answer. *)
Theorem build_graph_node_keys :
  forall (N : Type) (HN : Number N) (HM : MathLib N)
         (elements : list (RawElement N)) (mode : TransportMode)
         (k : string),
    JsMap.has (nodes (build_graph elements mode)) k = true <->
    exists i la lo, k = toString i /\ In (RawNode i la lo) elements.
Proof.
  intros N HN HM elements mode k. unfold build_graph. cbn [nodes]. split.
  - intros Hk. apply has_true in Hk. destruct Hk as [n Hn].
    apply get_In in Hn. apply parse_nodes_keys_sound in Hn.
    destruct Hn as [[]|(_ & i & Hk & Hel)]. eauto.
  - intros (i & la & lo & -> & Hel).
    now apply parse_nodes_has with (la := la) (lo := lo).
Qed.

(** X12.  When an id occurs on several point elements, the node map
    holds the coordinates of the last of them, under the id as key and
    as [id] field. *)
Theorem build_graph_last_point_wins :
  forall (N : Type) (HN : Number N) (HM : MathLib N)
         (pre post : list (RawElement N)) (mode : TransportMode)
         (i : Z) (la lo : N),
    (forall la' lo', ~ In (RawNode i la' lo') post) ->
    JsMap.get (nodes (build_graph (pre ++ RawNode i la lo :: post) mode))
              (toString i)
    = Some {| id := toString i; lat := la; lon := lo |}.
Proof.
  intros N HN HM pre post mode i la lo Hno. unfold build_graph.
  cbn [nodes]. rewrite fold_left_app. cbn [fold_left parse_node].
  rewrite (parse_nodes_untouched post i Hno). apply get_set_eq.
Qed.

Lemma build_graph_last_point_wins_witness :
  (forall la' lo' : R,
     ~ In (RawNode 1 la' lo') [RawWay 10 (Some [1; 2]%Z)]) /\
  JsMap.get
    (nodes (build_graph ([RawNode 1 0%R 0%R; RawNode 2 0%R 1%R]
                         ++ RawNode 1 5%R 6%R
                         :: [RawWay 10 (Some [1; 2]%Z)]) WALKING))
    (toString 1)
  = Some {| id := toString 1; lat := 5%R; lon := 6%R |}.
Proof.
  assert (Hno : forall la' lo' : R,
             ~ In (RawNode 1 la' lo') [RawWay 10 (Some [1; 2]%Z)]).
  { intros la' lo' [Hin|[]]. discriminate. }
  split; [exact Hno|].
  exact (@build_graph_last_point_wins R _ _
           [RawNode 1 0%R 0%R; RawNode 2 0%R 1%R]
           [RawWay 10 (Some [1; 2]%Z)] WALKING 1%Z 5%R 6%R Hno).
Defined.

(** X13.  On a graph built from an answer with at least one point
    element the search always finds a start node, and it is a key of
    the node map: the test [!startNodeId] lets it pass. *)
Theorem build_graph_start_node_found :
  forall (N : Type) (HN : Number N) (HM : MathLib N)
         (elements : list (RawElement N)) (mode : TransportMode)
         (startLat startLng : N) (i : Z) (la lo : N),
    In (RawNode i la lo) elements ->
    exists s,
      start_node (build_graph elements mode) startLat startLng = Some s /\
      JsMap.has (nodes (build_graph elements mode)) s = true.
Proof.
  intros N HN HM elements mode startLat startLng i la lo Hel.
  set (g := build_graph elements mode).
  assert (Hne : nodes g <> []).
  { pose proof (parse_nodes_has elements JsMap.empty i la lo Hel) as Hh.
    unfold g, build_graph. cbn [nodes]. intros E. rewrite E in Hh.
    discriminate. }
  destruct (nearest_node_nonempty startLat startLng g Hne) as [k Hk].
  assert (Hin : exists node, In (k, node) (nodes g)).
  { unfold nearest_node in Hk. apply nearest_fold_key in Hk.
    destruct Hk as [Hk|Hk]; [discriminate|exact Hk]. }
  destruct Hin as [node Hin].
  assert (Hkey : exists j, k = toString j).
  { unfold g, build_graph in Hin. cbn [nodes] in Hin.
    apply parse_nodes_keys_sound in Hin.
    destruct Hin as [[]|(_ & j & Hj & _)]. eauto. }
  destruct Hkey as [j ->]. exists (toString j). split.
  - unfold start_node. rewrite Hk.
    destruct (String.eqb (toString j) "") eqn:E; [|reflexivity].
    apply String.eqb_eq in E. now apply toString_nonempty in E.
  - apply has_true. eapply In_get. exact Hin.
Qed.

Lemma build_graph_start_node_found_witness :
  In (RawNode 3 1%R 1%R) one_way /\
  exists s,
    start_node (build_graph one_way WALKING) 0%R 0%R = Some s /\
    JsMap.has (nodes (build_graph one_way WALKING)) s = true.
Proof.
  assert (Hel : In (RawNode 3 1%R 1%R) one_way) by (simpl; auto).
  split; [exact Hel|].
  exact (@build_graph_start_node_found R _ _ one_way WALKING 0%R 0%R
           3%Z 1%R 1%R Hel).
Defined.

Section AdjacencyFacts.
Context {N : Type} `{Number N} `{MathLib N}.
Variable nodes0 : JsMap.t (Node N).
Variable mode : TransportMode.

Lemma fold_add_segment_sound segs : forall adj k e,
  In e (edges_at (fold_left (add_segment nodes0 mode) segs adj) k) ->
  In e (edges_at adj k) \/
  exists seg, In seg segs /\ In e (segment_edges nodes0 mode seg k).
Proof.
  induction segs as [|seg segs IH]; intros adj k e He; cbn [fold_left] in He.
  - now left.
  - apply IH in He. destruct He as [He|[seg' [Hseg He]]].
    + rewrite add_segment_edges_at in He. apply in_app_or in He.
      destruct He as [He|He]; [now left|].
      right. exists seg. split; [now left|exact He].
    + right. exists seg'. split; [now right|exact He].
Qed.

Lemma fold_parse_way_sound els : forall adj k e,
  In e (edges_at (fold_left (parse_way nodes0 mode) els adj) k) ->
  In e (edges_at adj k) \/
  exists wid ids seg,
    In (RawWay wid (Some ids)) els /\ In seg (segments ids)
    /\ In e (segment_edges nodes0 mode seg k).
Proof.
  induction els as [|el els IH]; intros adj k e He; cbn [fold_left] in He.
  - now left.
  - apply IH in He. destruct He as [He|(wid & ids & seg & Hel & Hseg & He)].
    + destruct el as [|wid [ids|]|]; cbn [parse_way] in He;
        try (now left).
      apply fold_add_segment_sound in He.
      destruct He as [He|[seg [Hseg He]]]; [now left|].
      right. exists wid, ids, seg. split; [now left|]. auto.
    + right. exists wid, ids, seg. split; [now right|]. auto.
Qed.

End AdjacencyFacts.

(** X14.  A built graph has no edge of its own making: every adjacency
    entry goes between two consecutive ids of some way of the answer,
    both of them keys of the node map, in one direction or the other,
    with the weight computed from the two stored nodes. *)
Theorem build_graph_edges_from_ways :
  forall (N : Type) (HN : Number N) (HM : MathLib N)
         (elements : list (RawElement N)) (mode : TransportMode)
         (k : string) (e : Edge N),
    In e (neighbors_of (build_graph elements mode) k) ->
    exists wid ids p q u v,
      In (RawWay wid (Some ids)) elements /\
      In (p, q) (segments ids) /\
      JsMap.get (nodes (build_graph elements mode)) (toString p) = Some u /\
      JsMap.get (nodes (build_graph elements mode)) (toString q) = Some v /\
      weight e = (getDistance (lat u) (lon u) (lat v) (lon v)
                  / speedMS mode)%num /\
      ((source e = toString p /\ target e = toString q /\ k = toString p) \/
       (source e = toString q /\ target e = toString p /\ k = toString q)).
Proof.
  intros N HN HM elements mode k e He.
  unfold neighbors_of, build_graph in *. cbn [nodes adjacency] in *.
  apply fold_parse_way_sound in He.
  destruct He as [[]|(wid & ids & [p q] & Hel & Hseg & He)].
  unfold segment_edges in He. cbn [fst snd] in He.
  destruct (JsMap.get _ (toString p)) as [u|] eqn:Eu; [|destruct He].
  destruct (JsMap.get _ (toString q)) as [v|] eqn:Ev; [|destruct He].
  exists wid, ids, p, q, u, v. cbv zeta in He.
  repeat (split; [assumption|]).
  apply in_app_or in He. destruct He as [He|He].
  - destruct (String.eqb (toString p) k) eqn:Ek; [|destruct He].
    apply String.eqb_eq in Ek. destruct He as [<-|[]]. cbn. auto.
  - destruct (String.eqb (toString q) k) eqn:Ek; [|destruct He].
    apply String.eqb_eq in Ek. destruct He as [<-|[]]. cbn. auto.
Qed.

Lemma build_graph_edges_from_ways_witness :
  let e := {| source := "2"%string; target := "1"%string;
              weight := (getDistance 0%R 0%R 0%R 1%R / speedMS WALKING)%num |} in
  In e (neighbors_of (build_graph one_way WALKING) "2") /\
  exists wid ids p q u v,
    In (RawWay wid (Some ids)) one_way /\
    In (p, q) (segments ids) /\
    JsMap.get (nodes (build_graph one_way WALKING)) (toString p) = Some u /\
    JsMap.get (nodes (build_graph one_way WALKING)) (toString q) = Some v /\
    weight e = (getDistance (lat u) (lon u) (lat v) (lon v)
                / speedMS WALKING)%num /\
    ((source e = toString p /\ target e = toString q
      /\ "2"%string = toString p) \/
     (source e = toString q /\ target e = toString p
      /\ "2"%string = toString q)).
Proof.
  intros e.
  assert (He : In e (neighbors_of (build_graph one_way WALKING) "2"))
    by (simpl; auto).
  split; [exact He|].
  exact (@build_graph_edges_from_ways R _ _ one_way WALKING "2"%string e He).
Defined.

(** ** The hull generator and the pipeline *)

(** X15.  [generateHull_delegates]: from three entries on, the result
    is the concave hull of the library when it yields one, and
    otherwise, also when the concave hull fails, whatever the convex
    hull gives. *)
Lemma generateHull_delegates_witness :
  (3 <= List.length coincident3)%nat /\
  @generateHull Q _ _ ring_turf coincident3 900%Q
  = match @turf_concave Q _ ring_turf
            (map (fun n => (lon n, lat n)) coincident3) (num_of_Q (1 # 10)) with
    | Returns (Some hull) => Returns (Some hull)
    | _ => @turf_convex Q _ ring_turf
             (map (fun n => (lon n, lat n)) coincident3)
    end.
Proof.
  assert (Hlen : (3 <= List.length coincident3)%nat) by (simpl; lia).
  split; [exact Hlen|].
  exact (@generateHull_delegates Q _ _ ring_turf coincident3 900%Q Hlen).
Defined.

(** X16.  [generateHull] fails only when the convex hull of the
    library fails: an exception of the concave hull is caught. *)
Theorem generateHull_throws_only_with_convex :
  forall (N Feature : Type) (HN : Number N) (HT : Turf N Feature)
         (nodes : list (Node N)) (maxTimeSeconds : N),
    generateHull nodes maxTimeSeconds = Throws ->
    turf_convex (map (fun n => (lon n, lat n)) nodes) = Throws.
Proof.
  intros N Feature HN HT nodes maxTimeSeconds. unfold generateHull.
  destruct (List.length nodes <? 3)%nat; [discriminate|]. cbv zeta.
  destruct (turf_concave _ _) as [[hull|]|]; try discriminate; auto.
  destruct (turf_convex _); [discriminate|auto].
Qed.



(** X18.  A point of interest on the equator or on the prime meridian
    is never analysed: when [lat] or [lng] is zero the call returns at
    its guard, before any request is sent, and the history stays as it
    was. *)
Theorem calculateIsochrone_skips_zero_coordinate :
  forall (N Feature : Type) (HN : Number N) (HO : OrderedNumber N)
         (HM : MathLib N) (HT : Turf N Feature) (fuel : nat)
         (fetch : Overpass N) (stateParams p : IsochroneParams N)
         (history : list (IsochroneResult N Feature)),
    p_lat p = num_of_Z 0 \/ p_lng p = num_of_Z 0 ->
    calculateIsochrone fuel fetch (Some p) stateParams history
    = Some (Skipped, history).
Proof.
  intros N Feature HN HO HM HT fuel fetch stateParams p history Hz.
  assert (F : num_falsy (N := N) (num_of_Z 0) = true).
  { unfold num_falsy. pose proof (num_le_refl (num_of_Z 0 : N)) as L.
    unfold num_le in L. now rewrite L. }
  unfold calculateIsochrone. cbv zeta.
  destruct Hz as [-> | ->]; rewrite F; [reflexivity|].
  now rewrite orb_true_r.
Qed.

Lemma calculateIsochrone_skips_zero_coordinate_witness :
  let p := {| p_lat := (-6)%R; p_lng := num_of_Z 0; p_mode := DRIVING;
              p_minutes := 10%R |} in
  (p_lat p = num_of_Z 0 \/ p_lng p = num_of_Z 0) /\
  @calculateIsochrone R _ _ _ ring_turf 5 empty_overpass (Some p) p []
  = Some (Skipped, []).
Proof.
  intros p.
  assert (Hz : p_lat p = num_of_Z 0 \/ p_lng p = num_of_Z 0)
    by (right; reflexivity).
  split; [exact Hz|].
  exact (@calculateIsochrone_skips_zero_coordinate R _ _ _ _
           ring_turf 5%nat empty_overpass p p [] Hz).
Defined.

(** X19.  When the request fails, or the server answers with a status
    that is not OK, no graph is searched: [calculateIsochrone] raises
    its failure alert and leaves the history as it was. *)
Theorem calculateIsochrone_fetch_failure :
  forall (N Feature : Type) (HN : Number N) (HM : MathLib N)
         (HT : Turf N Feature) (fuel : nat) (fetch : Overpass N)
         (stateParams p : IsochroneParams N)
         (history : list (IsochroneResult N Feature)),
    num_falsy (p_lat p) = false ->
    num_falsy (p_lng p) = false ->
    (forall m bbox,
       fetch m bbox = Throws \/
       exists r, fetch m bbox = Returns r /\ resp_ok r = false) ->
    calculateIsochrone fuel fetch (Some p) stateParams history
    = Some (AlertFailed, history).
Proof.
  intros N Feature HN HM HT fuel fetch stateParams p history Hlat Hlng Hf.
  unfold calculateIsochrone. cbv zeta. rewrite Hlat, Hlng. cbn [orb].
  unfold fetchRoadNetwork. cbv zeta.
  match goal with |- context [fetch ?m ?b] => destruct (Hf m b) as [E|[r [E Hr]]]
  end; rewrite E; [reflexivity|]. now rewrite Hr.
Qed.

Lemma calculateIsochrone_fetch_failure_witness :
  let p := {| p_lat := (-6)%Q; p_lng := 106%Q; p_mode := DRIVING;
              p_minutes := 10%Q |} in
  let mathQ := small_angle_math in
  let down : Overpass Q := fun _ _ => Throws in
  num_falsy (p_lat p) = false /\
  num_falsy (p_lng p) = false /\
  (forall m bbox,
     down m bbox = Throws \/
     exists r, down m bbox = Returns r /\ resp_ok r = false) /\
  @calculateIsochrone Q (list (Q * Q)) _ mathQ ring_turf 5 down (Some p) p []
  = Some (AlertFailed, []).
Proof.
  intros p mathQ down.
  assert (Hlat : num_falsy (p_lat p) = false) by reflexivity.
  assert (Hlng : num_falsy (p_lng p) = false) by reflexivity.
  assert (Hf : forall m bbox,
             down m bbox = Throws \/
             exists r, down m bbox = Returns r /\ resp_ok r = false)
    by (intros; left; reflexivity).
  split; [exact Hlat|]. split; [exact Hlng|]. split; [exact Hf|].
  exact (@calculateIsochrone_fetch_failure Q (list (Q * Q)) _ mathQ ring_turf
           5%nat down p p [] Hlat Hlng Hf).
Defined.

(** X20.  Fewer than three reachable nodes never give a result: when
    the search on the fetched graph returns fewer than 3 entries,
    [calculateIsochrone] raises the "could not generate" alert and
    leaves the history as it was, whatever the hull library would
    say. *)
Theorem calculateIsochrone_sparse :
  forall (N Feature : Type) (HN : Number N) (HM : MathLib N)
         (HT : Turf N Feature) (fuel : nat) (fetch : Overpass N)
         (stateParams p : IsochroneParams N)
         (history : list (IsochroneResult N Feature))
         (graph : GraphData N) (reached : list (Node N)),
    num_falsy (p_lat p) = false ->
    num_falsy (p_lng p) = false ->
    fetchRoadNetwork fetch (p_lat p) (p_lng p) (radius p) (p_mode p)
    = Returns graph ->
    calculateDijkstra fuel graph (p_lat p) (p_lng p)
      (p_minutes p * num_of_Z 60)%num = Some reached ->
    (List.length reached < 3)%nat ->
    calculateIsochrone fuel fetch (Some p) stateParams history
    = Some (AlertSparse, history).
Proof.
  intros N Feature HN HM HT fuel fetch stateParams p history graph reached
         Hlat Hlng Hg Hr Hlen.
  unfold calculateIsochrone. cbv zeta. rewrite Hlat, Hlng. cbn [orb].
  rewrite Hg, Hr. unfold generateHull.
  apply Nat.ltb_lt in Hlen. now rewrite Hlen.
Qed.

Lemma calculateIsochrone_sparse_witness :
  let p := {| p_lat := 1%R; p_lng := 2%R; p_mode := WALKING;
              p_minutes := 15%R |} in
  num_falsy (p_lat p) = false /\
  num_falsy (p_lng p) = false /\
  fetchRoadNetwork empty_overpass (p_lat p) (p_lng p) (radius p) (p_mode p)
  = Returns {| nodes := []; adjacency := [] |} /\
  calculateDijkstra 0 {| nodes := []; adjacency := [] |} (p_lat p) (p_lng p)
    (p_minutes p * num_of_Z 60)%num = Some [] /\
  (List.length (@nil (Node R)) < 3)%nat /\
  @calculateIsochrone R _ _ _ ring_turf 0 empty_overpass (Some p) p []
  = Some (AlertSparse, []).
Proof.
  intros p.
  assert (F : forall x : R, (0 < x)%R -> num_falsy x = false).
  { intros x Hx. unfold num_falsy. rewrite num_of_Z_R.
    assert (L : num_ltb 0%R x = true) by (apply Rltb_true; exact Hx).
    rewrite L. now rewrite andb_false_r. }
  assert (Hlat : num_falsy (p_lat p) = false) by (apply F; simpl; lra).
  assert (Hlng : num_falsy (p_lng p) = false) by (apply F; simpl; lra).
  assert (Hg : fetchRoadNetwork empty_overpass (p_lat p) (p_lng p)
                 (radius p) (p_mode p)
               = Returns {| nodes := []; adjacency := [] |}) by reflexivity.
  assert (Hr : calculateDijkstra 0 {| nodes := []; adjacency := [] |}
                 (p_lat p) (p_lng p) (p_minutes p * num_of_Z 60)%num
               = Some []) by reflexivity.
  assert (Hlen : (List.length (@nil (Node R)) < 3)%nat) by (simpl; lia).
  split; [exact Hlat|]. split; [exact Hlng|]. split; [exact Hg|].
  split; [exact Hr|]. split; [exact Hlen|].
  exact (@calculateIsochrone_sparse R _ _ _ ring_turf 0%nat empty_overpass
           p p [] _ _ Hlat Hlng Hg Hr Hlen).
Defined.

(** ** The history callbacks *)

Lemma filter_indexed_skip {A : Type} (idx : nat) (l : list A) :
  forall start, (idx < start)%nat ->
    filter_indexed (fun _ i => negb (Nat.eqb i idx)) start l = l.
Proof.
  induction l as [|x l IH]; intros start Hlt; [reflexivity|].
  cbn [filter_indexed].
  destruct (Nat.eqb start idx) eqn:E; [apply Nat.eqb_eq in E; lia|].
  cbn [negb]. f_equal. apply IH. lia.
Qed.

Lemma filter_indexed_remove {A : Type} (l : list A) :
  forall start idx, (start <= idx)%nat ->
    filter_indexed (fun _ i => negb (Nat.eqb i idx)) start l
    = firstn (idx - start) l ++ skipn (S (idx - start)) l.
Proof.
  induction l as [|x l IH]; intros start idx Hle.
  - now destruct (idx - start)%nat.
  - cbn [filter_indexed]. destruct (Nat.eqb start idx) eqn:E.
    + apply Nat.eqb_eq in E. subst idx. rewrite Nat.sub_diag.
      cbn [negb firstn skipn app]. apply filter_indexed_skip. lia.
    + apply Nat.eqb_neq in E. cbn [negb].
      replace (idx - start)%nat with (S (idx - S start)) by lia.
      cbn [firstn skipn app]. f_equal. apply IH. lia.
Qed.

(** X21.  Removing item [idx] from the history takes out the entry at
    that position and nothing else; the order of the others is kept,
    and an index past the end removes nothing. *)
Theorem onRemoveItem_splice :
  forall (A : Type) (idx : nat) (h : list A),
    onRemoveItem idx h = firstn idx h ++ skipn (S idx) h /\
    ((List.length h <= idx)%nat -> onRemoveItem idx h = h).
Proof.
  intros A idx h.
  assert (E : onRemoveItem idx h = firstn idx h ++ skipn (S idx) h).
  { unfold onRemoveItem. rewrite filter_indexed_remove by lia.
    now rewrite Nat.sub_0_r. }
  split; [exact E|]. intros Hlen. rewrite E.
  rewrite firstn_all2 by lia. rewrite skipn_all2 by lia. apply app_nil_r.
Qed.

(** X22.  Removing item 0 right after a call that appended a result
    gives back the history from before the call. *)
Theorem calculateIsochrone_then_remove :
  forall (N Feature : Type) (HN : Number N) (HM : MathLib N)
         (HT : Turf N Feature) (fuel : nat) (fetch : Overpass N)
         (customParams : option (IsochroneParams N))
         (stateParams : IsochroneParams N)
         (history h' : list (IsochroneResult N Feature)),
    calculateIsochrone fuel fetch customParams stateParams history
    = Some (Appended, h') ->
    onRemoveItem 0 h' = history.
Proof.
  intros N Feature HN HM HT fuel fetch customParams stateParams history h'.
  unfold calculateIsochrone. cbv zeta.
  destruct (num_falsy _ || num_falsy _); [discriminate|].
  destruct (fetchRoadNetwork _ _ _ _ _) as [graph|]; [|discriminate].
  destruct (calculateDijkstra _ _ _ _ _) as [nodes|]; [|discriminate].
  destruct (generateHull _ _) as [[hull|]|]; try discriminate.
  intros [= <-]. unfold onRemoveItem. cbn [filter_indexed Nat.eqb negb].
  apply filter_indexed_skip. lia.
Qed.

Lemma calculateIsochrone_then_remove_witness :
  let p := {| p_lat := 1%Q; p_lng := 1%Q; p_mode := WALKING;
              p_minutes := 15%Q |} in
  let r := {| polygon := [(1%Q, 1%Q); ((1001 # 1000)%Q, 1%Q);
                          ((1002 # 1000)%Q, 1%Q)];
              params := p |} in
  @calculateIsochrone Q _ _ small_angle_math ring_turf 20
    (overpass_answering three_in_a_row) None p []
  = Some (Appended, [r]) /\
  onRemoveItem 0 [r] = [].
Proof.
  intros p r.
  assert (E : @calculateIsochrone Q _ _ small_angle_math ring_turf 20
                (overpass_answering three_in_a_row) None p []
              = Some (Appended, [r])) by (vm_compute; reflexivity).
  split; [exact E|].
  exact (@calculateIsochrone_then_remove Q _ _ small_angle_math ring_turf
           20%nat (overpass_answering three_in_a_row) None p [] [r] E).
Defined.


(** ** Shortest times *)

Lemma generateHull_throws_only_with_convex_witness :
  @generateHull Q _ _ failing_turf coincident3 900%Q = Throws /\
  @turf_convex Q _ failing_turf (map (fun n => (lon n, lat n)) coincident3)
  = Throws.
Proof.
  assert (E : @generateHull Q _ _ failing_turf coincident3 900%Q = Throws)
    by reflexivity.
  split; [exact E|].
  exact (@generateHull_throws_only_with_convex Q _ _ failing_turf
           coincident3 900%Q E).
Defined.

Section ShortestTime.
Context {N : Type} `{Number N} `{!OrderedNumber N}.

Lemma sorted_least_key (l : list (N * string)) (v : string) :
  StronglySorted key_le l ->
  forall k, In (k, v) l ->
    exists k1, In (k1, v) l /\ forall k', In (k', v) l -> num_le k1 k'.
Proof.
  induction 1 as [|x l Hs IH Hall]; intros k Hk; [destruct Hk|].
  destruct (String.eqb (snd x) v) eqn:E.
  - apply String.eqb_eq in E. destruct x as [k0 v0]. cbn [snd] in E.
    subst v0. exists k0. split; [now left|].
    intros k' [[= <-]|Hin]; [apply num_le_refl|].
    rewrite Forall_forall in Hall. exact (Hall _ Hin).
  - destruct Hk as [->|Hk].
    { cbn [snd] in E. rewrite String.eqb_refl in E. discriminate. }
    destruct (IH k Hk) as [k1 [Hin Hmin]].
    exists k1. split; [now right|].
    intros k' [->|Hin']; [|now apply Hmin].
    cbn [snd] in E. rewrite String.eqb_refl in E. discriminate.
Qed.

End ShortestTime.

(** X23.  On a graph with non-negative weights, a node that some path
    reaches within the budget has a shortest travel time, and the
    search pops the node with exactly that time. *)
Theorem search_pops_shortest_time :
  forall (N : Type) (HN : Number N) (HO : OrderedNumber N)
         (g : GraphData N) (maxTimeSeconds : N) (s v : string) (d : N),
    nonneg_weights g ->
    walk g s v d ->
    num_le d maxTimeSeconds ->
    exists k,
      In (k, v) (pops (1 + edge_count g) g maxTimeSeconds (initial_state s)) /\
      walk g s v k /\
      num_le k maxTimeSeconds /\
      forall d', walk g s v d' -> num_le k d'.
Proof.
  intros N HN HO g maxTimeSeconds s v d Hw Hwalk Hd.
  destruct (search_terminates maxTimeSeconds Hw s) as [[st' Hst'] _].
  destruct (walk_popped Hw _ Hst' Hwalk Hd) as [k0 [Hk0 Hk0d]].
  assert (Hsorted : StronglySorted key_le
            (pops (1 + edge_count g) g maxTimeSeconds (initial_state s))).
  { eapply proj2.
    apply (pops_sorted_above maxTimeSeconds Hw (1 + edge_count g))
      with (b := num_of_Z 0).
    intros y [<-|[]]. apply num_le_refl. }
  destruct (sorted_least_key v Hsorted _ Hk0) as [k1 [Hk1 Hmin]].
  assert (Hk1max : num_le k1 maxTimeSeconds).
  { eapply num_le_trans; [apply Hmin; exact Hk0|].
    eapply num_le_trans; eauto. }
  exists k1. split; [exact Hk1|]. split.
  - eapply pops_walks in Hk1. exact Hk1.
  - split; [exact Hk1max|]. intros d' Hwalk'.
    destruct (maxTimeSeconds <? d')%num eqn:E.
    + eapply num_le_trans; [exact Hk1max|]. now apply num_lt_le.
    + destruct (walk_popped Hw _ Hst' Hwalk' E) as [k' [Hk' Hk'd]].
      eapply num_le_trans; [apply Hmin; exact Hk'|exact Hk'd].
Qed.

Lemma search_pops_shortest_time_witness :
  nonneg_weights triangle /\
  walk triangle "A" "B" (num_of_Z 0 + 10%Q)%num /\
  num_le (num_of_Z 0 + 10%Q)%num 100%Q /\
  exists k,
    In (k, "B"%string)
       (pops (1 + edge_count triangle) triangle 100%Q (initial_state "A")) /\
    walk triangle "A" "B" k /\
    num_le k 100%Q /\
    forall d', walk triangle "A" "B" d' -> num_le k d'.
Proof.
  assert (Hw : nonneg_weights triangle)
    by (apply nonneg_weightsb_sound; vm_compute; reflexivity).
  assert (Hwalk : walk triangle "A" "B" (num_of_Z 0 + 10%Q)%num).
  { apply (walk_step (g := triangle) (s := "A"%string) (u := "A"%string)
             (mkEdge "A" "B" 10) (walk_start triangle "A"%string)).
    simpl. auto. }
  assert (Hd : num_le (num_of_Z 0 + 10%Q)%num 100%Q)
    by (vm_compute; reflexivity).
  split; [exact Hw|]. split; [exact Hwalk|]. split; [exact Hd|].
  exact (@search_pops_shortest_time Q _ _ triangle 100%Q "A"%string
           "B"%string _ Hw Hwalk Hd).
Defined.

(** ** The shape of a built graph, for every carrier *)

(** X25.  Whatever the numbers are, doubles included, a built graph
    keeps its shape: every adjacency entry is stored under its source,
    its source and target are keys of the node map, and the entry in
    the opposite direction, with the same weight, is stored under its
    target. *)
Theorem build_graph_shape :
  forall (N : Type) (HN : Number N) (HM : MathLib N)
         (elements : list (RawElement N)) (mode : TransportMode)
         (k : string) (e : Edge N),
    In e (neighbors_of (build_graph elements mode) k) ->
    source e = k /\
    JsMap.has (nodes (build_graph elements mode)) (source e) = true /\
    JsMap.has (nodes (build_graph elements mode)) (target e) = true /\
    In {| source := target e; target := source e; weight := weight e |}
       (neighbors_of (build_graph elements mode) (target e)).
Proof.
  intros N HN HM elements mode k e He.
  destruct (@build_graph_invariant N HN HM (fun _ => True) mode
              (fun _ _ _ _ => I) elements k e He)
    as (Hs & Hhs & Hht & Hrev & _).
  auto.
Qed.

Lemma build_graph_shape_witness :
  let e := {| source := "2"%string; target := "1"%string;
              weight := (getDistance 0%R 0%R 0%R 1%R / speedMS WALKING)%num |} in
  In e (neighbors_of (build_graph one_way WALKING) "2") /\
  (source e = "2"%string /\
   JsMap.has (nodes (build_graph one_way WALKING)) (source e) = true /\
   JsMap.has (nodes (build_graph one_way WALKING)) (target e) = true /\
   In {| source := target e; target := source e; weight := weight e |}
      (neighbors_of (build_graph one_way WALKING) (target e))).
Proof.
  intros e.
  assert (He : In e (neighbors_of (build_graph one_way WALKING) "2"))
    by (simpl; auto).
  split; [exact He|].
  exact (@build_graph_shape R _ _ one_way WALKING "2"%string e He).
Defined.
